(** * Dye injector firmware (dye_injector.ino): command protocol model

    A shallow embedding of the sketch's serial command handling:
    [serialEvent] (line assembly), [loop] (dispatch and stage execution)
    and [processInjectCommand] (the stage micro-grammar).

    Target: AVR (the sketch calls avr-libc's [dtostre]), so [int] and
    [unsigned int] are 16 bits wide and [long] is 32 bits wide.  Machine
    integers are [Z] with the wrap-around written out.

    The Arduino [String] class (WString.cpp of the core) is a buffer
    with a length.  A [string] holds the characters below the length.
    [length], [concat(char)], [charAt] and [setCharAt] go by the length
    and take any byte, the NUL byte included.  [indexOf] ([strchr]),
    the copy returned by [substring] (a C string assignment), [==]
    ([strcmp]), [startsWith] ([strncmp]) and [toInt] ([atol]) read the
    buffer as C text, which ends at the first NUL byte.  A String made
    by a C copy holds no NUL byte.  The one String of the sketch that
    can hold one is the receive buffer, which [serialEvent] fills byte
    by byte: [loop] reads it through [indexOf_raw] and
    [substring_raw], and every String it hands on is free of NUL. *)

From Stdlib Require Import ZArith List Bool Ascii String Lia QArith.
From Stdlib Require Decimal DecimalString DecimalZ DecimalPos.
Import ListNotations.

Local Open Scope string_scope.
Local Open Scope Z_scope.

(** ** C integer types of the AVR target *)

(** Conversion to [unsigned int] (16 bits). *)
Definition cast_uint (z : Z) : Z := z mod 65536.

(** Conversion to [int] (16 bits, two's complement). *)
Definition cast_int (z : Z) : Z := (z + 32768) mod 65536 - 32768.

(** Conversion to [long] (32 bits, two's complement). *)
Definition cast_long (z : Z) : Z := (z + 2147483648) mod 4294967296 - 2147483648.

(** Arduino.h: [#define abs(x) ((x)>0?(x):-(x))], at type [int]. *)
Definition abs_int (x : Z) : Z := if x >? 0 then x else cast_int (- x).

(** ** The Arduino String operations the sketch uses *)

Definition newline : ascii := "010"%char.

Fixpoint drop (n : nat) (s : string) : string :=
  match n, s with
  | O, _ => s
  | S _, EmptyString => EmptyString
  | S n', String _ s' => drop n' s'
  end.

Fixpoint take (n : nat) (s : string) : string :=
  match n, s with
  | O, _ => EmptyString
  | S _, EmptyString => EmptyString
  | S n', String c s' => String c (take n' s')
  end.

Fixpoint find_char (ch : ascii) (s : string) : option nat :=
  match s with
  | EmptyString => None
  | String c s' =>
      if Ascii.eqb c ch then Some O
      else match find_char ch s' with
           | Some n => Some (S n)
           | None => None
           end
  end.

(** The C text of a String: the characters before the first NUL byte,
    all of them when there is none. *)
Fixpoint c_str (s : string) : string :=
  match s with
  | EmptyString => EmptyString
  | String c s' =>
      if Ascii.eqb c Ascii.zero then EmptyString else String c (c_str s')
  end.

(** [String::length()]. *)
Definition strlen (s : string) : Z := Z.of_nat (String.length s).

(** [int String::indexOf(char)] on a String without NUL byte: the first
    position of [ch], or -1. *)
Definition indexOf (ch : ascii) (s : string) : Z :=
  match find_char ch s with
  | Some n => cast_int (Z.of_nat n)
  | None => -1
  end.

(** [String::substring(unsigned int left, unsigned int right)] on a
    String without NUL byte: the arguments are converted to
    [unsigned int], swapped when out of order, and [right] is clipped to
    the length. *)
Definition substring (left right : Z) (s : string) : string :=
  let l := cast_uint left in
  let r := cast_uint right in
  let '(l, r) := if l >? r then (r, l) else (l, r) in
  if l >? strlen s then EmptyString
  else
    let r := if r >? strlen s then strlen s else r in
    take (Z.to_nat (r - l)) (drop (Z.to_nat l) s).

(** [String::substring(unsigned int beginIndex)]. *)
Definition substring_from (left : Z) (s : string) : string :=
  substring left (strlen s) s.

(** [indexOf] on a String that may hold NUL bytes: [strchr] searches
    the C text, so a character behind a NUL byte is not found. *)
Definition indexOf_raw (ch : ascii) (s : string) : Z := indexOf ch (c_str s).

(** [substring] on a String that may hold NUL bytes: the positions go
    by the length, and the copy that is returned stops at a NUL byte. *)
Definition substring_raw (left right : Z) (s : string) : string :=
  c_str (substring left right s).

(** [String::startsWith(prefix)]. *)
Definition startsWith (s pre : string) : bool := String.prefix pre s.

(** [String::charAt(index)]: the NUL character when out of range. *)
Definition charAt (index : Z) (s : string) : ascii :=
  if cast_uint index >=? strlen s then Ascii.zero
  else match String.get (Z.to_nat (cast_uint index)) s with
       | Some c => c
       | None => Ascii.zero
       end.

Fixpoint set_nth_char (n : nat) (c : ascii) (s : string) : string :=
  match s with
  | EmptyString => EmptyString
  | String a s' =>
      match n with
      | O => String c s'
      | S n' => String a (set_nth_char n' c s')
      end
  end.

(** [String::setCharAt(index, c)]: nothing happens out of range. *)
Definition setCharAt (index : Z) (c : ascii) (s : string) : string :=
  if cast_uint index <? strlen s then set_nth_char (Z.to_nat (cast_uint index)) c s
  else s.

(** ** String to integer: [String::toInt()] is avr-libc's [atol] *)

Definition isspace (c : ascii) : bool :=
  let n := nat_of_ascii c in
  ((n =? 32) || ((9 <=? n) && (n <=? 13)))%nat.

Definition isdigit (c : ascii) : bool :=
  let n := nat_of_ascii c in
  ((48 <=? n) && (n <=? 57))%nat.

Definition digit_value (c : ascii) : Z := Z.of_nat (nat_of_ascii c) - 48.

Fixpoint skip_spaces (s : string) : string :=
  match s with
  | EmptyString => EmptyString
  | String c s' => if isspace c then skip_spaces s' else s
  end.

(** The digit loop: the accumulator is a [long] and wraps. *)
Fixpoint atol_digits (acc : Z) (s : string) : Z :=
  match s with
  | EmptyString => acc
  | String c s' =>
      if isdigit c then atol_digits (cast_long (acc * 10 + digit_value c)) s'
      else acc
  end.

(** White space is skipped, then one sign is read, then the digits. *)
Definition atol (s : string) : Z :=
  match skip_spaces s with
  | EmptyString => 0
  | String c s' =>
      if Ascii.eqb c "-" then cast_long (- atol_digits 0 s')
      else if Ascii.eqb c "+" then atol_digits 0 s'
      else atol_digits 0 (String c s')
  end.

Definition toInt (s : string) : Z := atol s.

(** ** Constants and globals of the sketch *)

Definition nl : string := String newline EmptyString.

Definition freqdriveMotorControlVersion : string := "0.1".
Definition commandFromComputerMaxLength : Z := 256.
Definition stepsPerRevolution : Z := 200.
Definition MAX_INJECTION_STAGES : nat := 4.

(** The calls made on the Adafruit stepper object, in order. *)
Inductive Direction : Set := FORWARD | BACKWARD.
Inductive Style : Set := SINGLE | DOUBLE | INTERLEAVE | MICROSTEP.
Inductive MotorCall : Set :=
| setSpeed (rpm : Z)
| step (steps : Z) (dir : Direction) (style : Style)
| release.

(** A global array of [MAX_INJECTION_STAGES] = 4 integers. *)
Record stage_array : Set := mkArray { cell0 : Z; cell1 : Z; cell2 : Z; cell3 : Z }.

(** [a[i]], for an index within the array. *)
Definition array_get (i : Z) (a : stage_array) : Z :=
  match i with
  | 0 => cell0 a
  | 1 => cell1 a
  | 2 => cell2 a
  | 3 => cell3 a
  | _ => 0
  end.

(** [a[i] = v], for an index within the array. *)
Definition array_set (i : Z) (v : Z) (a : stage_array) : stage_array :=
  match i with
  | 0 => mkArray v (cell1 a) (cell2 a) (cell3 a)
  | 1 => mkArray (cell0 a) v (cell2 a) (cell3 a)
  | 2 => mkArray (cell0 a) (cell1 a) v (cell3 a)
  | 3 => mkArray (cell0 a) (cell1 a) (cell2 a) v
  | _ => a
  end.

Definition zero_array : stage_array := mkArray 0 0 0 0.

(** [String(unsigned int)]: the decimal text of a number. *)
Definition decimal (z : Z) : string :=
  DecimalString.NilEmpty.string_of_int (Z.to_int z).

(** ** Vocabulary of the protocol description *)

(** A text whose positions all fit the [int] that [indexOf] returns. *)
Definition indexable (s : string) : Prop := strlen s <= 32767.

(** The number a decimal numeral denotes, most significant digit first,
    continuing from [acc]. *)
Fixpoint uint_value (acc : Z) (u : Decimal.uint) : Z :=
  match u with
  | Decimal.Nil => acc
  | Decimal.D0 u' => uint_value (acc * 10 + 0) u'
  | Decimal.D1 u' => uint_value (acc * 10 + 1) u'
  | Decimal.D2 u' => uint_value (acc * 10 + 2) u'
  | Decimal.D3 u' => uint_value (acc * 10 + 3) u'
  | Decimal.D4 u' => uint_value (acc * 10 + 4) u'
  | Decimal.D5 u' => uint_value (acc * 10 + 5) u'
  | Decimal.D6 u' => uint_value (acc * 10 + 6) u'
  | Decimal.D7 u' => uint_value (acc * 10 + 7) u'
  | Decimal.D8 u' => uint_value (acc * 10 + 8) u'
  | Decimal.D9 u' => uint_value (acc * 10 + 9) u'
  end.

(** A stage as text: the steps token, a space, the speed token. *)
Definition stage_text (tokens : string * string) : string :=
  fst tokens ++ " " ++ snd tokens.

(** A stage list as text: stages separated by commas. *)
Definition stage_list_text (stages : list (string * string)) : string :=
  String.concat "," (map stage_text stages).

Definition inject_text (stages : list (string * string)) : string :=
  "Inject: " ++ stage_list_text stages.

(** A stage given by its numbers, written in decimal. *)
Definition stage_tokens (stage : Z * Z) : string * string :=
  (decimal (fst stage), decimal (snd stage)).

Fixpoint has_char (ch : ascii) (s : string) : bool :=
  match s with
  | EmptyString => false
  | String c s' => Ascii.eqb c ch || has_char ch s'
  end.

(** A token holds none of the three separators of the protocol. *)
Definition token_ok (t : string) : bool :=
  negb (has_char " " t) && negb (has_char "," t) && negb (has_char newline t).

Definition stage_ok (tokens : string * string) : bool :=
  token_ok (fst tokens) && token_ok (snd tokens).

(** A text without any decimal digit. *)
Fixpoint no_digit (t : string) : bool :=
  match t with
  | EmptyString => true
  | String c t' => negb (isdigit c) && no_digit t'
  end.

(** A token is non-numeric when, white space and one sign skipped, it
    does not go on with a decimal digit. *)
Definition non_numeric (t : string) : bool :=
  match skip_spaces t with
  | EmptyString => true
  | String c rest =>
      if Ascii.eqb c "-" || Ascii.eqb c "+" then
        match rest with
        | EmptyString => true
        | String d _ => negb (isdigit d)
        end
      else negb (isdigit c)
  end.

(** The last [n] characters of a text. *)
Definition last_chars (n : nat) (s : string) : string :=
  drop (String.length s - n) s.

(** The last character of the text [String a rest]. *)
Fixpoint last_char (a : ascii) (rest : string) : ascii :=
  match rest with
  | EmptyString => a
  | String b rest' => last_char b rest'
  end.

(** The text made of [n] copies of the character [c]. *)
Fixpoint fill (n : nat) (c : ascii) : string :=
  match n with
  | O => EmptyString
  | S n' => String c (fill n' c)
  end.

(** The capacity of the line buffer, in characters. *)
Definition capacity : nat := Z.to_nat commandFromComputerMaxLength.

(** The recognised commands without arguments. *)
Definition nullary_commands : list string :=
  ["Status?"; "Program?"; "Version?"; "DyeInjected?"; "ResetDyeInjected";
   "StepsPerRevolution?"; "VolumePerRevolution?"].

Definition query_commands : list string :=
  ["Status?"; "Program?"; "Version?"; "StepsPerRevolution?";
   "VolumePerRevolution?"; "DyeInjected?"].

(** A stage whose steps fit an [int] and whose speed fits an
    [unsigned int]. *)
Definition stage_in_range (stage : Z * Z) : bool :=
  (-32768 <=? fst stage) && (fst stage <=? 32767)
  && (0 <=? snd stage) && (snd stage <=? 65535).

(** The motor calls of one stage. *)
Definition stage_calls (stage : Z * Z) : list MotorCall :=
  [setSpeed (snd stage);
   step (Z.abs (fst stage)) (if fst stage >? 0 then FORWARD else BACKWARD) DOUBLE;
   release].

(** What may follow the digits of a numeral inside a token: nothing, or
    text that does not start with a digit. *)
Definition junk_ok (rest : string) : bool :=
  match rest with
  | EmptyString => true
  | String c _ => negb (isdigit c)
  end.

(** A stage list as text, then a comma and the text [tail]; with no
    stage, [tail] alone. *)
Definition stage_list_then (stages : list (string * string)) (tail : string)
  : string :=
  match stages with
  | [] => tail
  | _ :: _ => stage_list_text stages ++ "," ++ tail
  end.

(** The numbers of a stage as the sketch's [int] and [unsigned int]
    hold them. *)
Definition wrap_stage (stage : Z * Z) : Z * Z :=
  (cast_int (fst stage), cast_uint (snd stage)).

(** Every cell of an array lies between [lo] and [hi]. *)
Definition array_within (lo hi : Z) (a : stage_array) : Prop :=
  lo <= cell0 a <= hi /\ lo <= cell1 a <= hi
  /\ lo <= cell2 a <= hi /\ lo <= cell3 a <= hi.

(** Two arrays hold the same values in the cells below index [n]. *)
Definition agree_below (n : Z) (a b : stage_array) : Prop :=
  forall i, 0 <= i < n -> array_get i a = array_get i b.

(** ** An exact reading of the float operations, to run the model *)

Module Exact.
Definition volumePerRevolution : Q := (60 / (42188 # 10000)) / 40.
Definition floatToString (x : Q) : string :=
  decimal (Qnum x) ++ "/" ++ decimal (Z.pos (Qden x)).
End Exact.

(** ** The sketch *)

Section DyeInjector.

(** The target's [float] with its arithmetic, the conversion
    [(float)n] of an integer, the constant [volumePerRevolution]
    ((60.0/4.2188)/40.0) and the sketch's [floatToString] (avr-libc's
    [dtostre]) are kept abstract. *)
Variable float : Type.
Variables fadd fmul fdiv : float -> float -> float.
Variable float_of_Z : Z -> float.
Variable volumePerRevolution : float.
Variable floatToString : float -> string.

(** The global variables, the bytes printed on the serial port (one
    entry per [Serial.print]) and the calls made on the stepper. *)
Record State : Type := mkState {
  commandFromComputerString : string;
  commandFromComputerComplete : bool;
  dyeInjected : float;
  injectionStageSpeeds : stage_array;
  injectionStageSteps : stage_array;
  serial_tx : list string;
  motor : list MotorCall
}.

Definition set_string (s : string) (st : State) : State :=
  mkState s (commandFromComputerComplete st) (dyeInjected st)
          (injectionStageSpeeds st) (injectionStageSteps st)
          (serial_tx st) (motor st).

Definition set_complete (b : bool) (st : State) : State :=
  mkState (commandFromComputerString st) b (dyeInjected st)
          (injectionStageSpeeds st) (injectionStageSteps st)
          (serial_tx st) (motor st).

Definition set_dyeInjected (x : float) (st : State) : State :=
  mkState (commandFromComputerString st) (commandFromComputerComplete st) x
          (injectionStageSpeeds st) (injectionStageSteps st)
          (serial_tx st) (motor st).

Definition set_speed_at (i v : Z) (st : State) : State :=
  mkState (commandFromComputerString st) (commandFromComputerComplete st)
          (dyeInjected st)
          (array_set i v (injectionStageSpeeds st)) (injectionStageSteps st)
          (serial_tx st) (motor st).

Definition set_steps_at (i v : Z) (st : State) : State :=
  mkState (commandFromComputerString st) (commandFromComputerComplete st)
          (dyeInjected st)
          (injectionStageSpeeds st) (array_set i v (injectionStageSteps st))
          (serial_tx st) (motor st).

(** [Serial.print(s)]. *)
Definition print (s : string) (st : State) : State :=
  mkState (commandFromComputerString st) (commandFromComputerComplete st)
          (dyeInjected st)
          (injectionStageSpeeds st) (injectionStageSteps st)
          (serial_tx st ++ [s]) (motor st).

(** A call on [stepper]. *)
Definition drive (c : MotorCall) (st : State) : State :=
  mkState (commandFromComputerString st) (commandFromComputerComplete st)
          (dyeInjected st)
          (injectionStageSpeeds st) (injectionStageSteps st)
          (serial_tx st) (motor st ++ [c]).

(** The state after the global initialisers have run. *)
Definition power_on : State :=
  mkState "" false (float_of_Z 0) zero_array zero_array [] [].

(** *** processInjectCommand *)

(** The [for] loop over the stages; [remaining] counts the iterations
    left, [MAX_INJECTION_STAGES - numberStages]. *)
Fixpoint read_stages (remaining : nat) (numberStages : Z) (s : string)
         (st : State) : Z * State :=
  match remaining with
  | O => (-1, st)
  | S remaining' =>
      let index := indexOf " " s in
      if index =? -1 then
        (if strlen s =? 0 then numberStages else -1, st)
      else
        let st := set_steps_at numberStages
                    (cast_int (toInt (substring 0 index s))) st in
        let s := substring_from (index + 1) s in
        let index := indexOf "," s in
        if index =? -1 then
          (numberStages + 1,
           set_speed_at numberStages (cast_uint (toInt s)) st)
        else
          let st := set_speed_at numberStages
                      (cast_uint (toInt (substring 0 index s))) st in
          read_stages remaining' (numberStages + 1)
                      (substring_from (index + 1) s) st
  end.

Definition processInjectCommand (s : string) (st : State) : Z * State :=
  if negb (startsWith s "Inject: ") then (-1, st)
  else read_stages MAX_INJECTION_STAGES 0 (substring_from 8 s) st.

(** *** loop *)

(** The body of the stage loop of [loop], for stage [i]. *)
Definition run_stage (i : Z) (st : State) : State :=
  let st := drive (setSpeed (array_get i (injectionStageSpeeds st))) st in
  let steps := array_get i (injectionStageSteps st) in
  let st := drive (step (cast_uint (abs_int steps))
                        (if steps >? 0 then FORWARD else BACKWARD)
                        DOUBLE) st in
  let st := drive release st in
  set_dyeInjected
    (fadd (dyeInjected st)
          (fdiv (fmul (float_of_Z steps) volumePerRevolution)
                (float_of_Z stepsPerRevolution)))
    st.

Fixpoint run_stages (count : nat) (i : Z) (st : State) : State :=
  match count with
  | O => st
  | S count' => run_stages count' (i + 1) (run_stage i st)
  end.

(** The chain of comparisons on the trimmed command. *)
Definition dispatch (st : State) : State :=
  let cmd := commandFromComputerString st in
  if (cmd =? "Status?")%string then print ("OK" ++ nl) st
  else if (cmd =? "Program?")%string then print ("Dye Injector" ++ nl) st
  else if (cmd =? "Version?")%string then
    print (freqdriveMotorControlVersion ++ nl) st
  else if (cmd =? "DyeInjected?")%string then
    print (floatToString (dyeInjected st) ++ nl) st
  else if (cmd =? "ResetDyeInjected")%string then
    print ("ACK" ++ nl) (set_dyeInjected (float_of_Z 0) st)
  else if (cmd =? "StepsPerRevolution?")%string then
    print (decimal stepsPerRevolution ++ nl) st
  else if (cmd =? "VolumePerRevolution?")%string then
    print (floatToString volumePerRevolution ++ nl) st
  else if startsWith cmd "Inject: " then
    let '(numberStages, st) := processInjectCommand cmd st in
    if numberStages =? -1 then print ("Invalid" ++ nl) st
    else run_stages (Z.to_nat numberStages) 0 (print ("Executing" ++ nl) st)
  else print ("Invalid" ++ nl) st.

Definition loop (st : State) : State :=
  if commandFromComputerComplete st then
    let s := commandFromComputerString st in
    let st := set_string (substring_raw 0 (indexOf_raw newline s) s) st in
    let st := dispatch st in
    set_complete false (set_string "" st)
  else st.

(** *** serialEvent *)

(** The loop that moves every character down one slot. *)
Fixpoint shift_down (count : nat) (i : Z) (s : string) : string :=
  match count with
  | O => s
  | S count' => shift_down count' (i + 1) (setCharAt i (charAt (i + 1) s) s)
  end.

(** One iteration of the [while]: the byte read is [currentChar]. *)
Definition receive (currentChar : ascii) (st : State) : State :=
  let s := commandFromComputerString st in
  let s :=
    if strlen s <? commandFromComputerMaxLength then
      s ++ String currentChar EmptyString
    else
      let s := shift_down (Z.to_nat (cast_uint (strlen s - 1))) 0 s in
      setCharAt (strlen s - 1) currentChar s in
  let st := set_string s st in
  if Ascii.eqb currentChar newline then set_complete true st else st.

(** [serialEvent] with the bytes [rx] available on the port. *)
Fixpoint serialEvent (rx : string) (st : State) : State :=
  match rx with
  | EmptyString => st
  | String currentChar rx' => serialEvent rx' (receive currentChar st)
  end.

(** *** Vocabulary over states *)

(** The arrays after the stages [stages] are stored from index
    [numberStages] on, each token converted as the sketch does. *)
Fixpoint store_stages (numberStages : Z) (stages : list (string * string))
         (st : State) : State :=
  match stages with
  | [] => st
  | t :: stages' =>
      store_stages (numberStages + 1) stages'
        (set_speed_at numberStages (cast_uint (toInt (snd t)))
           (set_steps_at numberStages (cast_int (toInt (fst t))) st))
  end.

(** What the device is about: the volume counter, the stage arrays and
    the motor (the line buffer and its flag left out). *)
Definition device (st : State)
  : float * stage_array * stage_array * list MotorCall :=
  (dyeInjected st, injectionStageSpeeds st, injectionStageSteps st, motor st).

(** The volume of one stage of [steps] steps. *)
Definition stage_volume (steps : Z) : float :=
  fdiv (fmul (float_of_Z steps) volumePerRevolution)
       (float_of_Z stepsPerRevolution).

(** The counter after the volumes of [stages] are added in order. *)
Definition add_volumes (x : float) (stages : list (Z * Z)) : float :=
  fold_left (fun acc stage => fadd acc (stage_volume (fst stage))) stages x.

(** [loop] run on the buffer that holds the line [line], complete. *)
Definition dispatch_line (line : string) (st : State) : State :=
  loop (set_complete true (set_string (line ++ nl) st)).

(** The states the sketch can be in: after the initialisers, and then
    after any run of [serialEvent] or [loop]. *)
Inductive reachable : State -> Prop :=
| reach_power_on : reachable power_on
| reach_serialEvent (rx : string) (st : State) :
    reachable st -> reachable (serialEvent rx st)
| reach_loop (st : State) : reachable st -> reachable (loop st).

(** The state but for the two stage arrays. *)
Definition outside_arrays (st : State)
  : string * bool * float * list string * list MotorCall :=
  (commandFromComputerString st, commandFromComputerComplete st,
   dyeInjected st, serial_tx st, motor st).

(** The steps cells fit an [int], the speed cells an [unsigned int]. *)
Definition arrays_in_range (st : State) : Prop :=
  array_within (-32768) 32767 (injectionStageSteps st)
  /\ array_within 0 65535 (injectionStageSpeeds st).

(** The stages held by the cells [i], [i+1], ... ([count] of them). *)
Fixpoint stored_stages (count : nat) (i : Z) (st : State) : list (Z * Z) :=
  match count with
  | O => []
  | S count' =>
      (array_get i (injectionStageSteps st),
       array_get i (injectionStageSpeeds st))
      :: stored_stages count' (i + 1) st
  end.

(** The state with other stage arrays. *)
Definition with_arrays (speeds steps : stage_array) (st : State) : State :=
  mkState (commandFromComputerString st) (commandFromComputerComplete st)
          (dyeInjected st) speeds steps (serial_tx st) (motor st).

(** The command [loop] cuts out of the buffer of [st]. *)
Definition pending_command (st : State) : string :=
  let s := commandFromComputerString st in
  substring_raw 0 (indexOf_raw newline s) s.

(** The stages the command [cmd] stores and runs: those of an accepted
    Inject command, none for any other text. *)
Definition stages_of (cmd : string) : list (Z * Z) :=
  let '(numberStages, st) := processInjectCommand cmd power_on in
  if numberStages =? -1 then []
  else stored_stages (Z.to_nat numberStages) 0 st.

(** What happens to the sketch after power-on: bytes arrive and
    [serialEvent] runs, or [loop] runs. *)
Inductive event : Set :=
| ev_serialEvent (rx : string)
| ev_loop.

Definition step_event (st : State) (e : event) : State :=
  match e with
  | ev_serialEvent rx => serialEvent rx st
  | ev_loop => loop st
  end.

(** The state after the events [events], from [st]. *)
Definition run (events : list event) (st : State) : State :=
  fold_left step_event events st.

(** The log of the events [events] from [st]: the stages run so far
    ([ran]) and those run since the last ResetDyeInjected ([since]).
    A run of [loop] with a complete command empties [since] when the
    command is ResetDyeInjected, and otherwise adds the command's stages
    to both. *)
Fixpoint stage_log (events : list event) (st : State)
         (ran since : list (Z * Z)) : list (Z * Z) * list (Z * Z) :=
  match events with
  | [] => (ran, since)
  | ev_serialEvent rx :: events' =>
      stage_log events' (serialEvent rx st) ran since
  | ev_loop :: events' =>
      if commandFromComputerComplete st then
        let cmd := pending_command st in
        if (cmd =? "ResetDyeInjected")%string then
          stage_log events' (loop st) ran []
        else
          stage_log events' (loop st) (ran ++ stages_of cmd) (since ++ stages_of cmd)
      else stage_log events' (loop st) ran since
  end.

(** Turns [a mod m] into [a - m * q] for an unknown [q] and closes the
    goal by ring normalisation. *)
Ltac quotient_out :=
  rewrite Z.mod_eq by lia;
  match goal with
  | |- context [?a / ?b] => generalize (a / b); intro; ring
  end.

(** A host that sends the line [line] and lets the sketch run. *)
Definition exchange (line : string) (st : State) : State :=
  loop (serialEvent (line ++ nl) st).


(** ** Facts on the integer conversions *)

Lemma mod_shift (a b q m : Z) : a = b + q * m -> a mod m = b mod m.
Proof. intros ->. apply Z_mod_plus_full. Qed.

Lemma gtb_false (a b : Z) : a <= b -> (a >? b) = false.
Proof. intros H. rewrite Z.gtb_ltb. apply Z.ltb_ge. exact H. Qed.

Lemma cast_uint_small (z : Z) : 0 <= z < 65536 -> cast_uint z = z.
Proof. intros H. unfold cast_uint. apply Z.mod_small. exact H. Qed.

Lemma cast_int_small (z : Z) : -32768 <= z <= 32767 -> cast_int z = z.
Proof. intros H. unfold cast_int. rewrite Z.mod_small; lia. Qed.

Lemma cast_long_small (z : Z) :
  -2147483648 <= z <= 2147483647 -> cast_long z = z.
Proof. intros H. unfold cast_long. rewrite Z.mod_small; lia. Qed.

Lemma cast_long_range (z : Z) :
  -2147483648 <= cast_long z <= 2147483647.
Proof.
  unfold cast_long.
  pose proof (Z.mod_pos_bound (z + 2147483648) 4294967296). lia.
Qed.

Lemma cast_int_long (z : Z) : cast_int (cast_long z) = cast_int z.
Proof.
  unfold cast_int, cast_long. f_equal.
  apply mod_shift with (q := - 65536 * ((z + 2147483648) / 4294967296)).
  quotient_out.
Qed.

Lemma cast_uint_long (z : Z) : cast_uint (cast_long z) = cast_uint z.
Proof.
  unfold cast_uint, cast_long.
  apply mod_shift with (q := - 65536 * ((z + 2147483648) / 4294967296)).
  quotient_out.
Qed.

Lemma cast_long_step (x v : Z) :
  cast_long (cast_long x * 10 + v) = cast_long (x * 10 + v).
Proof.
  unfold cast_long. f_equal.
  apply mod_shift with (q := - 10 * ((x + 2147483648) / 4294967296)).
  quotient_out.
Qed.

Lemma cast_long_opp (x : Z) : cast_long (- cast_long x) = cast_long (- x).
Proof.
  unfold cast_long. f_equal.
  apply mod_shift with (q := (x + 2147483648) / 4294967296).
  quotient_out.
Qed.

Lemma cast_uint_abs_int (x : Z) :
  -32768 <= x <= 32767 -> cast_uint (abs_int x) = Z.abs x.
Proof.
  intros H. unfold abs_int.
  destruct (x >? 0) eqn:E.
  - rewrite cast_uint_small; lia.
  - destruct (Z.eq_dec x (-32768)) as [-> | Hne].
    + reflexivity.
    + rewrite cast_int_small by lia. rewrite cast_uint_small; lia.
Qed.

(** ** Facts on the String operations *)

Lemma append_assoc (a b c : string) : (a ++ b) ++ c = a ++ (b ++ c).
Proof. induction a as [| x a IH]; simpl; [reflexivity | now rewrite IH]. Qed.

Lemma append_empty (a : string) : a ++ "" = a.
Proof. induction a as [| x a IH]; simpl; [reflexivity | now rewrite IH]. Qed.

Lemma length_append (a b : string) :
  String.length (a ++ b) = (String.length a + String.length b)%nat.
Proof. induction a as [| x a IH]; simpl; [reflexivity | now rewrite IH]. Qed.

Lemma strlen_append (a b : string) : strlen (a ++ b) = strlen a + strlen b.
Proof. unfold strlen. rewrite length_append. lia. Qed.

Lemma strlen_nonneg (s : string) : 0 <= strlen s.
Proof. unfold strlen. lia. Qed.

Lemma strlen_String (c : ascii) (s : string) : strlen (String c s) = strlen s + 1.
Proof. unfold strlen. simpl String.length. lia. Qed.

Lemma drop_append (a b : string) : drop (String.length a) (a ++ b) = b.
Proof. induction a as [| x a IH]; simpl; [now destruct b | exact IH]. Qed.

Lemma take_append (a b : string) : take (String.length a) (a ++ b) = a.
Proof.
  induction a as [| x a IH]; simpl; [reflexivity | now rewrite IH].
Qed.

Lemma take_all (s : string) : take (String.length s) s = s.
Proof. rewrite <- (append_empty s) at 2. apply take_append. Qed.

Lemma has_char_append (ch : ascii) (a b : string) :
  has_char ch (a ++ b) = has_char ch a || has_char ch b.
Proof.
  induction a as [| x a IH]; simpl; [reflexivity |].
  rewrite IH. now rewrite orb_assoc.
Qed.

Lemma find_char_absent (ch : ascii) (s : string) :
  has_char ch s = false -> find_char ch s = None.
Proof.
  induction s as [| x s IH]; simpl; [reflexivity |].
  intros H. apply orb_false_elim in H as [Hx Hs].
  rewrite Hx. now rewrite IH.
Qed.

Lemma find_char_first (ch : ascii) (a b : string) :
  has_char ch a = false ->
  find_char ch (a ++ String ch b) = Some (String.length a).
Proof.
  induction a as [| x a IH]; simpl.
  - intros _. now rewrite Ascii.eqb_refl.
  - intros H. apply orb_false_elim in H as [Hx Ha].
    rewrite Hx. now rewrite IH.
Qed.

Lemma indexOf_absent (ch : ascii) (s : string) :
  has_char ch s = false -> indexOf ch s = -1.
Proof. intros H. unfold indexOf. now rewrite find_char_absent. Qed.

Lemma indexOf_first (ch : ascii) (a b : string) :
  has_char ch a = false ->
  indexable (a ++ String ch b) ->
  indexOf ch (a ++ String ch b) = strlen a.
Proof.
  intros H Hfit. unfold indexOf. rewrite find_char_first by exact H.
  unfold indexable in Hfit. rewrite strlen_append in Hfit.
  pose proof (strlen_nonneg (String ch b)). pose proof (strlen_nonneg a).
  apply cast_int_small. fold (strlen a). lia.
Qed.

Lemma substring_head (a b : string) :
  strlen (a ++ b) <= 65535 -> substring 0 (strlen a) (a ++ b) = a.
Proof.
  intros Hfit. rewrite strlen_append in Hfit.
  pose proof (strlen_nonneg a). pose proof (strlen_nonneg b).
  unfold substring. rewrite (cast_uint_small 0) by lia.
  rewrite (cast_uint_small (strlen a)) by lia.
  rewrite (gtb_false 0 (strlen a)) by lia.
  rewrite (gtb_false 0 (strlen (a ++ b))) by (rewrite strlen_append; lia).
  rewrite (gtb_false (strlen a) (strlen (a ++ b))) by (rewrite strlen_append; lia).
  rewrite Z.sub_0_r. unfold strlen at 1. rewrite Nat2Z.id.
  simpl drop. apply take_append.
Qed.

Lemma substring_tail (a b : string) (c : ascii) :
  strlen (a ++ String c b) <= 65535 ->
  substring_from (strlen a + 1) (a ++ String c b) = b.
Proof.
  intros Hfit. unfold substring_from, substring.
  pose proof (strlen_nonneg a). pose proof (strlen_nonneg b).
  assert (Hlen : strlen (a ++ String c b) = strlen a + 1 + strlen b)
    by (rewrite strlen_append, strlen_String; lia).
  rewrite Hlen in *.
  rewrite (cast_uint_small (strlen a + 1)) by lia.
  rewrite (cast_uint_small (strlen a + 1 + strlen b)) by lia.
  rewrite !gtb_false by lia.
  replace (strlen a + 1 + strlen b - (strlen a + 1)) with (strlen b) by lia.
  replace (Z.to_nat (strlen a + 1)) with (String.length (a ++ String c ""))
    by (rewrite length_append; unfold strlen; simpl; lia).
  replace (a ++ String c b) with ((a ++ String c "") ++ b)
    by (rewrite append_assoc; reflexivity).
  rewrite drop_append. unfold strlen. rewrite Nat2Z.id. apply take_all.
Qed.

Lemma substring_whole (s : string) :
  strlen s <= 65535 -> substring 0 (-1) s = s.
Proof.
  intros Hfit. pose proof (strlen_nonneg s).
  unfold substring. change (cast_uint 0) with 0. change (cast_uint (-1)) with 65535.
  change (0 >? 65535) with false. cbv iota beta.
  rewrite (gtb_false 0 (strlen s)) by lia.
  destruct (65535 >? strlen s) eqn:E.
  - rewrite Z.sub_0_r. unfold strlen. rewrite Nat2Z.id. simpl drop. apply take_all.
  - rewrite Z.gtb_ltb in E. apply Z.ltb_ge in E.
    replace 65535 with (strlen s) by lia.
    rewrite Z.sub_0_r. unfold strlen. rewrite Nat2Z.id. simpl drop. apply take_all.
Qed.

(** ** Facts on the C text *)

Lemma c_str_clean (s : string) :
  has_char Ascii.zero s = false -> c_str s = s.
Proof.
  induction s as [| x s IH]; cbn [has_char c_str]; [reflexivity |].
  intros H. apply orb_false_elim in H as [Hx Hs].
  rewrite Hx. now rewrite IH.
Qed.

Lemma c_str_append_clean (a b : string) :
  has_char Ascii.zero a = false -> c_str (a ++ b) = a ++ c_str b.
Proof.
  induction a as [| x a IH]; cbn [has_char c_str append]; [reflexivity |].
  intros H. apply orb_false_elim in H as [Hx Ha].
  rewrite Hx. now rewrite IH.
Qed.

Lemma c_str_append_nul (a b : string) :
  has_char Ascii.zero a = true -> c_str (a ++ b) = c_str a.
Proof.
  induction a as [| x a IH]; cbn [has_char c_str append]; [discriminate |].
  destruct (Ascii.eqb x Ascii.zero); [reflexivity |].
  cbn [orb]. intros H. now rewrite IH.
Qed.

Lemma has_char_c_str (ch : ascii) (s : string) :
  has_char ch s = false -> has_char ch (c_str s) = false.
Proof.
  induction s as [| x s IH]; cbn [has_char c_str]; [reflexivity |].
  intros H. apply orb_false_elim in H as [Hx Hs].
  destruct (Ascii.eqb x Ascii.zero); [reflexivity |].
  cbn [has_char]. rewrite Hx. now apply IH.
Qed.

Lemma c_str_nul_free (s : string) : has_char Ascii.zero (c_str s) = false.
Proof.
  induction s as [| x s IH]; cbn [c_str]; [reflexivity |].
  destruct (Ascii.eqb x Ascii.zero) eqn:E; [reflexivity |].
  cbn [has_char]. now rewrite E.
Qed.

Lemma strlen_c_str (s : string) : strlen (c_str s) <= strlen s.
Proof.
  induction s as [| x s IH]; cbn [c_str]; [reflexivity |].
  destruct (Ascii.eqb x Ascii.zero).
  - pose proof (strlen_nonneg (String x s)). exact H.
  - rewrite !strlen_String. lia.
Qed.

(** ** [toInt] on decimal numerals *)

Lemma cast_long_idem (z : Z) : cast_long (cast_long z) = cast_long z.
Proof. apply cast_long_small, cast_long_range. Qed.

Lemma cast_long_next (a b k : Z) :
  cast_long a = cast_long b -> cast_long (a * 10 + k) = cast_long (b * 10 + k).
Proof.
  intros H. rewrite <- (cast_long_step a), <- (cast_long_step b). now rewrite H.
Qed.

Lemma uint_value_congr (u : Decimal.uint) :
  forall a b, cast_long a = cast_long b ->
              cast_long (uint_value a u) = cast_long (uint_value b u).
Proof.
  induction u; intros a b H; simpl; try exact H;
    apply IHu, cast_long_next, H.
Qed.

Lemma atol_digits_uint (u : Decimal.uint) :
  forall acc,
    cast_long (atol_digits acc (DecimalString.NilEmpty.string_of_uint u))
    = cast_long (uint_value acc u).
Proof.
  induction u; intros acc; try reflexivity;
    cbn [DecimalString.NilEmpty.string_of_uint atol_digits uint_value];
    match goal with
    | |- context [isdigit ?c] => change (isdigit c) with true; cbv iota
    end;
    rewrite IHu; apply uint_value_congr;
    rewrite cast_long_idem; reflexivity.
Qed.

Lemma atol_digits_range (s : string) :
  forall acc, -2147483648 <= acc <= 2147483647 ->
              -2147483648 <= atol_digits acc s <= 2147483647.
Proof.
  induction s as [| c s IH]; intros acc H; simpl; [exact H |].
  destruct (isdigit c); [apply IH, cast_long_range | exact H].
Qed.

Lemma atol_digits_numeral (u : Decimal.uint) :
  atol_digits 0 (DecimalString.NilEmpty.string_of_uint u)
  = cast_long (uint_value 0 u).
Proof.
  rewrite <- atol_digits_uint. symmetry.
  apply cast_long_small, atol_digits_range. lia.
Qed.

Lemma of_uint_acc_value (u : Decimal.uint) :
  forall acc, Z.pos (Pos.of_uint_acc u acc) = uint_value (Z.pos acc) u.
Proof.
  induction u; intros acc; cbn [Pos.of_uint_acc uint_value];
    try reflexivity; rewrite IHu; f_equal; lia.
Qed.

Lemma of_uint_value (u : Decimal.uint) : Z.of_uint u = uint_value 0 u.
Proof.
  unfold Z.of_uint.
  induction u; cbn [Pos.of_uint Z.of_N uint_value]; try reflexivity;
    try exact IHu; apply of_uint_acc_value.
Qed.

Lemma atol_minus (s : string) :
  atol (String "-" s) = cast_long (- atol_digits 0 s).
Proof. reflexivity. Qed.

Lemma atol_numeral (d : Decimal.int) :
  atol (DecimalString.NilEmpty.string_of_int d) = cast_long (Z.of_int d).
Proof.
  destruct d as [u | u]; simpl Z.of_int; rewrite of_uint_value.
  - rewrite <- atol_digits_numeral. now destruct u.
  - simpl DecimalString.NilEmpty.string_of_int. rewrite atol_minus.
    rewrite atol_digits_numeral. apply cast_long_opp.
Qed.

Lemma toInt_decimal (z : Z) : toInt (decimal z) = cast_long z.
Proof.
  unfold toInt, decimal. rewrite atol_numeral. now rewrite DecimalZ.of_to.
Qed.

Lemma steps_of_decimal (z : Z) :
  -32768 <= z <= 32767 -> cast_int (toInt (decimal z)) = z.
Proof.
  intros H. rewrite toInt_decimal, cast_int_long. now apply cast_int_small.
Qed.

Lemma speed_of_decimal (z : Z) : cast_uint (toInt (decimal z)) = z mod 65536.
Proof. rewrite toInt_decimal, cast_uint_long. reflexivity. Qed.

Lemma has_char_numeral (ch : ascii) (u : Decimal.uint) :
  isdigit ch = false ->
  has_char ch (DecimalString.NilEmpty.string_of_uint u) = false.
Proof.
  intros H.
  induction u; cbn [DecimalString.NilEmpty.string_of_uint has_char];
    try reflexivity; rewrite IHu, orb_false_r;
    apply Ascii.eqb_neq; intros <-; discriminate H.
Qed.

Lemma has_char_decimal (ch : ascii) (z : Z) :
  isdigit ch = false -> Ascii.eqb "-" ch = false ->
  has_char ch (decimal z) = false.
Proof.
  intros Hd Hm. unfold decimal.
  destruct (Z.to_int z) as [u | u];
    cbn [DecimalString.NilEmpty.string_of_int has_char].
  - now apply has_char_numeral.
  - rewrite Hm. now apply has_char_numeral.
Qed.

Lemma token_ok_decimal (z : Z) : token_ok (decimal z) = true.
Proof.
  unfold token_ok. rewrite !has_char_decimal; reflexivity.
Qed.

(** ** [processInjectCommand] on a stage list *)

Lemma eqb_minus_one (z : Z) : 0 <= z -> (z =? -1) = false.
Proof. intros H. apply Z.eqb_neq. lia. Qed.

Lemma indexable_tail (a b : string) :
  indexable (a ++ b) -> indexable b.
Proof.
  unfold indexable. rewrite strlen_append.
  pose proof (strlen_nonneg a). lia.
Qed.

Lemma indexable_65535 (s : string) : indexable s -> strlen s <= 65535.
Proof. unfold indexable. lia. Qed.

Lemma stage_ok_tokens (t : string * string) :
  stage_ok t = true ->
  has_char " " (fst t) = false /\ has_char "," (snd t) = false.
Proof.
  unfold stage_ok, token_ok. intros H.
  apply andb_true_iff in H as [Hfst Hsnd].
  apply andb_true_iff in Hfst as [Hfst _].
  apply andb_true_iff in Hfst as [Hfst _].
  apply andb_true_iff in Hsnd as [Hsnd _].
  apply andb_true_iff in Hsnd as [_ Hsnd].
  split; now apply negb_true_iff.
Qed.

Lemma stage_list_text_cons (t t' : string * string)
      (stages : list (string * string)) :
  stage_list_text (t :: t' :: stages)
  = fst t ++ String " " (snd t ++ String "," (stage_list_text (t' :: stages))).
Proof.
  unfold stage_list_text. cbn [map String.concat]. unfold stage_text.
  rewrite append_assoc. reflexivity.
Qed.

Lemma stage_list_text_one (t : string * string) :
  stage_list_text [t] = fst t ++ String " " (snd t).
Proof. reflexivity. Qed.

Lemma read_stages_text (stages : list (string * string)) :
  forall remaining numberStages st,
    stages <> [] ->
    forallb stage_ok stages = true ->
    indexable (stage_list_text stages) ->
    read_stages remaining numberStages (stage_list_text stages) st
    = if (List.length stages <=? remaining)%nat
      then (numberStages + Z.of_nat (List.length stages),
            store_stages numberStages stages st)
      else (-1, store_stages numberStages (firstn remaining stages) st).
Proof.
  induction stages as [| t stages IH]; intros remaining n st Hne Hok Hfit;
    [contradiction |].
  cbn [forallb] in Hok. apply andb_true_iff in Hok as [Ht Hok].
  destruct (stage_ok_tokens t Ht) as [Hsp Hco].
  destruct remaining as [| r]; [reflexivity |].
  destruct stages as [| t' stages].
  - rewrite stage_list_text_one in *.
    cbn [read_stages].
    rewrite indexOf_first by assumption.
    rewrite eqb_minus_one by apply strlen_nonneg.
    rewrite substring_head by now apply indexable_65535.
    rewrite substring_tail by now apply indexable_65535.
    rewrite indexOf_absent by assumption.
    reflexivity.
  - rewrite stage_list_text_cons in *.
    cbn [read_stages].
    rewrite indexOf_first by assumption.
    rewrite eqb_minus_one by apply strlen_nonneg.
    rewrite substring_head by now apply indexable_65535.
    rewrite substring_tail by now apply indexable_65535.
    apply indexable_tail in Hfit.
    change (String " " ?x) with (" " ++ x) in Hfit.
    apply indexable_tail in Hfit.
    rewrite indexOf_first by assumption.
    rewrite eqb_minus_one by apply strlen_nonneg.
    rewrite substring_head by now apply indexable_65535.
    rewrite substring_tail by now apply indexable_65535.
    apply indexable_tail in Hfit.
    change (String "," ?x) with ("," ++ x) in Hfit.
    apply indexable_tail in Hfit.
    rewrite IH by (assumption || discriminate).
    change (List.length (t :: t' :: stages) <=? S r)%nat
      with (List.length (t' :: stages) <=? r)%nat.
    destruct (List.length (t' :: stages) <=? r)%nat; [| reflexivity].
    change (List.length (t :: t' :: stages))
      with (S (List.length (t' :: stages))).
    cbn [store_stages]. f_equal. lia.
Qed.

Lemma startsWith_inject (x : string) :
  startsWith ("Inject: " ++ x) "Inject: " = true.
Proof. unfold startsWith. cbn. now destruct x. Qed.

Lemma substring_from_prefix (x : string) :
  indexable ("Inject: " ++ x) -> substring_from 8 ("Inject: " ++ x) = x.
Proof.
  intros Hfit.
  change ("Inject: " ++ x) with ("Inject:" ++ String " " x) in *.
  change 8 with (strlen "Inject:" + 1).
  apply substring_tail. now apply indexable_65535.
Qed.

Lemma processInjectCommand_text (stages : list (string * string)) (st : State) :
  stages <> [] ->
  forallb stage_ok stages = true ->
  indexable (inject_text stages) ->
  processInjectCommand (inject_text stages) st
  = if (List.length stages <=? MAX_INJECTION_STAGES)%nat
    then (Z.of_nat (List.length stages), store_stages 0 stages st)
    else (-1, store_stages 0 (firstn MAX_INJECTION_STAGES stages) st).
Proof.
  intros Hne Hok Hfit. unfold processInjectCommand, inject_text in *.
  rewrite startsWith_inject. cbn [negb]. rewrite substring_from_prefix by exact Hfit.
  apply (indexable_tail "Inject: ") in Hfit.
  now rewrite read_stages_text.
Qed.

(** ** [loop] on a buffer that holds a line *)

Lemma loop_idle (st : State) :
  commandFromComputerComplete st = false -> loop st = st.
Proof. intros H. unfold loop. now rewrite H. Qed.

Lemma loop_pending (st : State) :
  commandFromComputerComplete st = true ->
  loop st = set_complete false
              (set_string "" (dispatch (set_string (pending_command st) st))).
Proof. intros Hc. unfold loop. now rewrite Hc. Qed.

(** The command [loop] cuts out of the buffer. *)
Lemma trim_line (line rest : string) :
  has_char newline line = false ->
  indexable (line ++ nl ++ rest) ->
  substring_raw 0 (indexOf_raw newline (line ++ nl ++ rest)) (line ++ nl ++ rest)
  = c_str line.
Proof.
  intros Hnl Hfit. unfold substring_raw, indexOf_raw.
  destruct (has_char Ascii.zero line) eqn:Hz.
  - rewrite (c_str_append_nul line) by exact Hz.
    rewrite indexOf_absent by now apply has_char_c_str.
    rewrite substring_whole by now apply indexable_65535.
    now apply c_str_append_nul.
  - rewrite (c_str_append_clean line) by exact Hz.
    change (c_str (nl ++ rest)) with (String newline (c_str rest)).
    change (nl ++ rest) with (String newline rest) in *.
    rewrite indexOf_first; [| exact Hnl |].
    + rewrite substring_head by now apply indexable_65535.
      reflexivity.
    + unfold indexable in *. rewrite strlen_append, strlen_String in *.
      pose proof (strlen_c_str rest). lia.
Qed.

Lemma trim_without_terminator (s : string) :
  has_char newline s = false ->
  indexable s ->
  substring_raw 0 (indexOf_raw newline s) s = c_str s.
Proof.
  intros Hnl Hfit. unfold substring_raw, indexOf_raw.
  rewrite indexOf_absent by now apply has_char_c_str.
  now rewrite substring_whole by now apply indexable_65535.
Qed.

Lemma loop_command (st : State) (line rest : string) :
  commandFromComputerComplete st = true ->
  commandFromComputerString st = line ++ nl ++ rest ->
  has_char newline line = false ->
  indexable (commandFromComputerString st) ->
  loop st = set_complete false
              (set_string "" (dispatch (set_string (c_str line) st))).
Proof.
  intros Hc Hs Hnl Hfit. unfold loop. rewrite Hc, Hs in *.
  now rewrite trim_line.
Qed.

Lemma loop_line (st : State) (line rest : string) :
  commandFromComputerComplete st = true ->
  commandFromComputerString st = line ++ nl ++ rest ->
  has_char newline line = false ->
  has_char Ascii.zero line = false ->
  indexable (commandFromComputerString st) ->
  loop st = set_complete false (set_string "" (dispatch (set_string line st))).
Proof.
  intros Hc Hs Hnl Hz Hfit.
  rewrite (loop_command st line rest) by assumption.
  now rewrite c_str_clean.
Qed.

Lemma loop_without_terminator (st : State) :
  commandFromComputerComplete st = true ->
  has_char newline (commandFromComputerString st) = false ->
  indexable (commandFromComputerString st) ->
  loop st = set_complete false
              (set_string ""
                 (dispatch (set_string (c_str (commandFromComputerString st)) st))).
Proof.
  intros Hc Hnl Hfit. unfold loop. rewrite Hc.
  now rewrite trim_without_terminator.
Qed.

Lemma dispatch_inject (x : string) (st : State) :
  commandFromComputerString st = "Inject: " ++ x ->
  dispatch st
  = let '(numberStages, st') := processInjectCommand ("Inject: " ++ x) st in
    if numberStages =? -1 then print ("Invalid" ++ nl) st'
    else run_stages (Z.to_nat numberStages) 0 (print ("Executing" ++ nl) st').
Proof.
  intros H. unfold dispatch. rewrite H.
  change ("Inject: " ++ x =? "Status?")%string with false.
  change ("Inject: " ++ x =? "Program?")%string with false.
  change ("Inject: " ++ x =? "Version?")%string with false.
  change ("Inject: " ++ x =? "DyeInjected?")%string with false.
  change ("Inject: " ++ x =? "ResetDyeInjected")%string with false.
  change ("Inject: " ++ x =? "StepsPerRevolution?")%string with false.
  change ("Inject: " ++ x =? "VolumePerRevolution?")%string with false.
  cbv iota. rewrite startsWith_inject. reflexivity.
Qed.

Lemma has_char_stage_list (stages : list (string * string)) :
  forallb stage_ok stages = true ->
  has_char newline (stage_list_text stages) = false.
Proof.
  induction stages as [| t stages IH]; intros Hok; [reflexivity |].
  cbn [forallb] in Hok. apply andb_true_iff in Hok as [Ht Hok].
  unfold stage_ok, token_ok in Ht.
  apply andb_true_iff in Ht as [Hfst Hsnd].
  apply andb_true_iff in Hfst as [_ Hfst]. apply negb_true_iff in Hfst.
  apply andb_true_iff in Hsnd as [_ Hsnd]. apply negb_true_iff in Hsnd.
  destruct stages as [| t' stages].
  - rewrite stage_list_text_one.
    change (String " " (snd t)) with (" " ++ snd t).
    rewrite !has_char_append, Hfst, Hsnd. reflexivity.
  - rewrite stage_list_text_cons.
    change (String " " ?x) with (" " ++ x).
    change (String "," ?x) with ("," ++ x).
    rewrite !has_char_append, Hfst, Hsnd, (IH Hok). reflexivity.
Qed.

Lemma has_char_inject_text (stages : list (string * string)) :
  forallb stage_ok stages = true ->
  has_char newline (inject_text stages) = false.
Proof.
  intros Hok. unfold inject_text.
  rewrite has_char_append, has_char_stage_list by exact Hok. reflexivity.
Qed.

Lemma nul_free_decimal_list (stages : list (Z * Z)) :
  has_char Ascii.zero (stage_list_text (map stage_tokens stages)) = false.
Proof.
  induction stages as [| s stages IH]; [reflexivity |].
  destruct stages as [| s' stages]; cbn [map] in *.
  - rewrite stage_list_text_one.
    change (String " " ?x) with (" " ++ x).
    rewrite !has_char_append. unfold stage_tokens. cbn [fst snd].
    rewrite !has_char_decimal by reflexivity. reflexivity.
  - rewrite stage_list_text_cons.
    change (String " " ?x) with (" " ++ x).
    change (String "," ?x) with ("," ++ x).
    rewrite !has_char_append, IH. unfold stage_tokens. cbn [fst snd].
    rewrite !has_char_decimal by reflexivity. reflexivity.
Qed.

Lemma nul_free_decimal_stages (stages : list (Z * Z)) :
  has_char Ascii.zero (inject_text (map stage_tokens stages)) = false.
Proof.
  unfold inject_text. rewrite has_char_append, nul_free_decimal_list.
  reflexivity.
Qed.

(** Storing stages leaves the counter, the motor and the port alone. *)
Lemma store_stages_frame (stages : list (string * string)) :
  forall n st,
    dyeInjected (store_stages n stages st) = dyeInjected st
    /\ motor (store_stages n stages st) = motor st
    /\ serial_tx (store_stages n stages st) = serial_tx st.
Proof.
  induction stages as [| t stages IH]; intros n st; cbn [store_stages];
    [auto |].
  destruct (IH (n + 1)
               (set_speed_at n (cast_uint (toInt (snd t)))
                  (set_steps_at n (cast_int (toInt (fst t))) st)))
    as (-> & -> & ->).
  auto.
Qed.

Lemma indexable_head (a b : string) : indexable (a ++ b) -> indexable a.
Proof.
  unfold indexable. rewrite strlen_append.
  pose proof (strlen_nonneg b). lia.
Qed.

(** ** The claims on dispatch *)

(** C3 (as the sketch behaves): an Inject command whose stage list has
    five or more stages (tokens without separator and without NUL byte)
    is answered
    "Invalid" and nothing else: "Executing" is not printed, the stepper
    receives no call and dyeInjected keeps its value. *)
Theorem inject_five_stages_invalid (st : State)
        (stages : list (string * string)) (rest : string) :
  commandFromComputerComplete st = true ->
  commandFromComputerString st = inject_text stages ++ nl ++ rest ->
  forallb stage_ok stages = true ->
  has_char Ascii.zero (inject_text stages) = false ->
  (5 <= List.length stages)%nat ->
  indexable (commandFromComputerString st) ->
  serial_tx (loop st) = (serial_tx st ++ [("Invalid" ++ nl)%string])%list
  /\ motor (loop st) = motor st
  /\ dyeInjected (loop st) = dyeInjected st.
Proof.
  intros Hc Hs Hok Hz Hlen Hfit.
  rewrite (loop_line st (inject_text stages) rest Hc Hs
                     (has_char_inject_text stages Hok) Hz Hfit).
  rewrite Hs in Hfit. apply indexable_head in Hfit.
  rewrite (dispatch_inject (stage_list_text stages)) by reflexivity.
  fold (inject_text stages).
  assert (Hne : stages <> []) by (intros ->; cbn in Hlen; lia).
  rewrite processInjectCommand_text by assumption.
  replace (List.length stages <=? MAX_INJECTION_STAGES)%nat with false
    by (symmetry; apply Nat.leb_gt; unfold MAX_INJECTION_STAGES; lia).
  change (-1 =? -1) with true. cbv iota.
  destruct (store_stages_frame (firstn MAX_INJECTION_STAGES stages) 0
              (set_string (inject_text stages) st)) as (Hd & Hm & Ht).
  cbn [set_complete set_string print serial_tx motor dyeInjected].
  rewrite Hd, Hm, Ht. auto.
Qed.

(** C2 (what the sketch does): the line "Inject: " with an empty stage
    list is accepted with zero stages, so "Executing" is printed and no
    stage runs. *)
Theorem empty_stage_list_executes (st : State) (rest : string) :
  commandFromComputerComplete st = true ->
  commandFromComputerString st = "Inject: " ++ nl ++ rest ->
  indexable (commandFromComputerString st) ->
  fst (processInjectCommand "Inject: " st) = 0
  /\ serial_tx (loop st) = (serial_tx st ++ [("Executing" ++ nl)%string])%list
  /\ motor (loop st) = motor st
  /\ dyeInjected (loop st) = dyeInjected st.
Proof.
  intros Hc Hs Hfit. split; [reflexivity |].
  rewrite (loop_line st "Inject: " rest Hc Hs) by (reflexivity || assumption).
  rewrite (dispatch_inject "") by reflexivity.
  auto.
Qed.

(** C6: whatever the state, the command "ResetDyeInjected" sets
    dyeInjected to 0 and is answered "ACK". *)
Theorem reset_dye_injected (st : State) (rest : string) :
  commandFromComputerComplete st = true ->
  commandFromComputerString st = "ResetDyeInjected" ++ nl ++ rest ->
  indexable (commandFromComputerString st) ->
  dyeInjected (loop st) = float_of_Z 0
  /\ serial_tx (loop st) = (serial_tx st ++ [("ACK" ++ nl)%string])%list.
Proof.
  intros Hc Hs Hfit.
  rewrite (loop_line st "ResetDyeInjected" rest Hc Hs)
    by (reflexivity || assumption).
  auto.
Qed.

(** C7 (as the sketch behaves): a line without NUL byte that is none
    of the commands without arguments and does not start with
    "Inject: " is answered "Invalid"; the counter, the stage arrays and
    the motor are untouched, and the buffer is empty and the flag down
    for the next line. *)
Theorem unrecognized_line_invalid (st : State) (line rest : string) :
  commandFromComputerComplete st = true ->
  commandFromComputerString st = line ++ nl ++ rest ->
  has_char newline line = false ->
  has_char Ascii.zero line = false ->
  indexable (commandFromComputerString st) ->
  ~ In line nullary_commands ->
  startsWith line "Inject: " = false ->
  loop st = mkState "" false (dyeInjected st)
                    (injectionStageSpeeds st) (injectionStageSteps st)
                    (serial_tx st ++ [("Invalid" ++ nl)%string])%list
                    (motor st).
Proof.
  intros Hc Hs Hnl Hz Hfit Hnot Hpre.
  rewrite (loop_line st line rest Hc Hs Hnl Hz Hfit).
  unfold dispatch. cbn [set_string commandFromComputerString].
  unfold nullary_commands in Hnot. cbn [In] in Hnot.
  rewrite !(proj2 (String.eqb_neq line _)) by (intros ->; tauto).
  rewrite Hpre. reflexivity.
Qed.


(** ** The claims on the stage grammar and on execution *)

Lemma toInt_non_numeric (t : string) : non_numeric t = true -> toInt t = 0.
Proof.
  unfold toInt, atol, non_numeric.
  destruct (skip_spaces t) as [| c r]; [reflexivity |].
  destruct (Ascii.eqb c "-") eqn:Em; cbn [orb].
  - destruct r as [| d r]; [reflexivity |].
    intros H. apply negb_true_iff in H. cbn [atol_digits]. now rewrite H.
  - destruct (Ascii.eqb c "+") eqn:Ep.
    + destruct r as [| d r]; [reflexivity |].
      intros H. apply negb_true_iff in H. cbn [atol_digits]. now rewrite H.
    + intros H. apply negb_true_iff in H. cbn [atol_digits]. now rewrite H.
Qed.

Lemma no_digit_skip_spaces (t : string) :
  no_digit t = true -> no_digit (skip_spaces t) = true.
Proof.
  induction t as [| c t IH]; [reflexivity |].
  cbn [no_digit skip_spaces]. intros H.
  destruct (isspace c); [| exact H].
  apply andb_true_iff in H as [_ H]. now apply IH.
Qed.

Lemma no_digit_non_numeric (t : string) :
  no_digit t = true -> non_numeric t = true.
Proof.
  intros H. apply no_digit_skip_spaces in H. unfold non_numeric.
  destruct (skip_spaces t) as [| c r]; [reflexivity |].
  cbn [no_digit] in H. apply andb_true_iff in H as [Hc Hr].
  destruct (Ascii.eqb c "-" || Ascii.eqb c "+"); [| exact Hc].
  destruct r as [| d r]; [reflexivity |].
  cbn [no_digit] in Hr. now apply andb_true_iff in Hr as [Hd _].
Qed.

Lemma store_stages_get (stages : list (string * string)) (st : State)
      (i : nat) (t : string * string) :
  (List.length stages <= MAX_INJECTION_STAGES)%nat ->
  nth_error stages i = Some t ->
  array_get (Z.of_nat i) (injectionStageSteps (store_stages 0 stages st))
  = cast_int (toInt (fst t))
  /\ array_get (Z.of_nat i) (injectionStageSpeeds (store_stages 0 stages st))
     = cast_uint (toInt (snd t)).
Proof.
  unfold MAX_INJECTION_STAGES. intros Hlen Hnth.
  destruct stages as [| t1 [| t2 [| t3 [| t4 [| t5 stages]]]]];
    cbn [List.length] in Hlen; try lia;
    destruct i as [| [| [| [| i]]]]; cbn [nth_error] in Hnth;
    try discriminate Hnth;
    try (destruct i; discriminate Hnth);
    injection Hnth as <-; split; reflexivity.
Qed.

Lemma stage_ok_decimal (stages : list (Z * Z)) :
  forallb stage_ok (map stage_tokens stages) = true.
Proof.
  induction stages as [| stage stages IH]; [reflexivity |].
  cbn [map forallb]. rewrite IH. unfold stage_ok, stage_tokens.
  cbn [fst snd]. now rewrite !token_ok_decimal.
Qed.

Lemma stage_in_range_bounds (stage : Z * Z) :
  stage_in_range stage = true ->
  -32768 <= fst stage <= 32767 /\ 0 <= snd stage < 65536.
Proof.
  unfold stage_in_range. intros H.
  repeat (apply andb_true_iff in H as [H ?]). lia.
Qed.

Lemma stored_stage (stage : Z * Z) :
  stage_in_range stage = true ->
  cast_int (toInt (fst (stage_tokens stage))) = fst stage
  /\ cast_uint (toInt (snd (stage_tokens stage))) = snd stage
  /\ cast_uint (abs_int (fst stage)) = Z.abs (fst stage).
Proof.
  intros H. apply stage_in_range_bounds in H as [Hsteps Hspeed].
  unfold stage_tokens. cbn [fst snd].
  rewrite steps_of_decimal by exact Hsteps.
  rewrite speed_of_decimal, Z.mod_small by exact Hspeed.
  rewrite cast_uint_abs_int by exact Hsteps. auto.
Qed.

(** C1 (as the sketch behaves): a well-formed Inject command of N
    stages, 1 <= N <= 4, whose steps fit the 16-bit int and whose speeds
    fit the 16-bit unsigned int, is
    answered "Executing"; then for each stage in order the stepper gets
    setSpeed(speed), step(|steps|, direction by the sign of steps) and
    release(), N triples in all; dyeInjected grows by the stages'
    volumes steps * volumePerRevolution / stepsPerRevolution, added in
    order. *)
Theorem inject_executes_stages (st : State) (stages : list (Z * Z))
        (rest : string) :
  commandFromComputerComplete st = true ->
  commandFromComputerString st
  = inject_text (map stage_tokens stages) ++ nl ++ rest ->
  (1 <= List.length stages <= 4)%nat ->
  forallb stage_in_range stages = true ->
  indexable (commandFromComputerString st) ->
  serial_tx (loop st) = (serial_tx st ++ [("Executing" ++ nl)%string])%list
  /\ motor (loop st) = (motor st ++ flat_map stage_calls stages)%list
  /\ List.length (flat_map stage_calls stages) = (3 * List.length stages)%nat
  /\ dyeInjected (loop st) = add_volumes (dyeInjected st) stages.
Proof.
  intros Hc Hs Hlen Hrange Hfit.
  rewrite (loop_line st _ rest Hc Hs
             (has_char_inject_text _ (stage_ok_decimal stages))
             (nul_free_decimal_stages stages) Hfit).
  rewrite Hs in Hfit. apply indexable_head in Hfit.
  rewrite (dispatch_inject (stage_list_text (map stage_tokens stages)))
    by reflexivity.
  fold (inject_text (map stage_tokens stages)).
  assert (Hne : map stage_tokens stages <> [])
    by (destruct stages; [cbn in Hlen; lia | discriminate]).
  rewrite processInjectCommand_text
    by (try apply stage_ok_decimal; assumption).
  rewrite length_map.
  replace (List.length stages <=? MAX_INJECTION_STAGES)%nat with true
    by (symmetry; apply Nat.leb_le; unfold MAX_INJECTION_STAGES; lia).
  rewrite (eqb_minus_one (Z.of_nat (List.length stages))) by lia.
  rewrite Nat2Z.id.
  destruct stages as [| s1 [| s2 [| s3 [| s4 [| s5 stages]]]]];
    cbn [List.length] in Hlen; try lia; clear Hlen Hne Hfit;
    cbn [forallb] in Hrange;
    repeat match type of Hrange with
           | (_ && _) = true => apply andb_true_iff in Hrange as [? Hrange]
           end;
    repeat match goal with
           | H : stage_in_range ?s = true |- _ =>
               destruct (stored_stage s H) as (? & ? & ?); clear H
           end;
    cbn [map store_stages run_stages run_stage Z.add Pos.add Pos.succ
         array_get array_set set_speed_at set_steps_at print drive
         set_dyeInjected set_complete set_string
         injectionStageSpeeds injectionStageSteps serial_tx motor
         dyeInjected cell0 cell1 cell2 cell3
         flat_map stage_calls List.length List.app
         add_volumes fold_left stage_volume];
    repeat match goal with
           | H : _ = _ |- _ => rewrite H; clear H
           end;
    rewrite <- ?app_assoc; cbn [List.app]; auto.
Qed.

Lemma parse_stage_list (st : State) (stages : list (string * string))
      (i : nat) (t : string * string) :
  (1 <= List.length stages <= 4)%nat ->
  forallb stage_ok stages = true ->
  indexable (inject_text stages) ->
  nth_error stages i = Some t ->
  fst (processInjectCommand (inject_text stages) st)
  = Z.of_nat (List.length stages)
  /\ array_get (Z.of_nat i)
       (injectionStageSteps (snd (processInjectCommand (inject_text stages) st)))
     = cast_int (toInt (fst t))
  /\ array_get (Z.of_nat i)
       (injectionStageSpeeds (snd (processInjectCommand (inject_text stages) st)))
     = cast_uint (toInt (snd t)).
Proof.
  intros Hlen Hok Hfit Hnth.
  assert (Hne : stages <> []) by (intros ->; cbn in Hlen; lia).
  rewrite processInjectCommand_text by assumption.
  replace (List.length stages <=? MAX_INJECTION_STAGES)%nat with true
    by (symmetry; apply Nat.leb_le; unfold MAX_INJECTION_STAGES; lia).
  cbn [fst snd]. split; [reflexivity |].
  apply store_stages_get; [unfold MAX_INJECTION_STAGES; lia | exact Hnth].
Qed.

(** C4 (as the sketch behaves): a stage whose speed token is the
    numeral of a negative number z does not make parsing fail; the speed
    stored is z reduced modulo 65536, that is 65536 + z when
    -65536 < z, and so is not 0 unless z is a multiple of 65536. *)
Theorem negative_speed_wraps (st : State) (stages : list (string * string))
        (i : nat) (steps_token : string) (z : Z) :
  (1 <= List.length stages <= 4)%nat ->
  forallb stage_ok stages = true ->
  indexable (inject_text stages) ->
  nth_error stages i = Some (steps_token, decimal z) ->
  z < 0 ->
  let result := processInjectCommand (inject_text stages) st in
  fst result = Z.of_nat (List.length stages)
  /\ array_get (Z.of_nat i) (injectionStageSpeeds (snd result)) = z mod 65536
  /\ (-65536 < z ->
      array_get (Z.of_nat i) (injectionStageSpeeds (snd result)) = 65536 + z).
Proof.
  intros Hlen Hok Hfit Hnth Hneg result. subst result.
  destruct (parse_stage_list st stages i _ Hlen Hok Hfit Hnth) as (Hn & _ & Hv).
  cbn [snd] in Hv. rewrite speed_of_decimal in Hv.
  split; [exact Hn |]. split; [exact Hv |].
  intros Hlow. rewrite Hv. symmetry.
  apply Z.mod_unique with (q := -1); lia.
Qed.

(** ** The line buffer *)

Lemma charAt_append (pre : string) (b : ascii) (r : string) :
  strlen (pre ++ String b r) <= 65535 ->
  charAt (strlen pre) (pre ++ String b r) = b.
Proof.
  intros Hfit. unfold charAt.
  assert (Hlen : strlen (pre ++ String b r) = strlen pre + 1 + strlen r)
    by (rewrite strlen_append, strlen_String; lia).
  pose proof (strlen_nonneg pre). pose proof (strlen_nonneg r).
  rewrite cast_uint_small by lia.
  replace (strlen pre >=? strlen (pre ++ String b r)) with false
    by (symmetry; rewrite Z.geb_leb; apply Z.leb_gt; lia).
  unfold strlen at 1. rewrite Nat2Z.id. clear.
  induction pre as [| x pre IH]; [reflexivity | exact IH].
Qed.

Lemma setCharAt_append (pre : string) (a c : ascii) (r : string) :
  strlen (pre ++ String a r) <= 65535 ->
  setCharAt (strlen pre) c (pre ++ String a r) = pre ++ String c r.
Proof.
  intros Hfit. unfold setCharAt.
  assert (Hlen : strlen (pre ++ String a r) = strlen pre + 1 + strlen r)
    by (rewrite strlen_append, strlen_String; lia).
  pose proof (strlen_nonneg pre). pose proof (strlen_nonneg r).
  rewrite cast_uint_small by lia.
  replace (strlen pre <? strlen (pre ++ String a r)) with true
    by (symmetry; apply Z.ltb_lt; lia).
  unfold strlen. rewrite Nat2Z.id. clear.
  induction pre as [| x pre IH]; [reflexivity | cbn; now rewrite IH].
Qed.

Lemma shift_down_spec (rest : string) :
  forall pre a,
    strlen (pre ++ String a rest) <= 65535 ->
    shift_down (String.length rest) (strlen pre) (pre ++ String a rest)
    = pre ++ rest ++ String (last_char a rest) "".
Proof.
  induction rest as [| b r IH]; intros pre a Hfit; [reflexivity |].
  cbn [String.length shift_down last_char].
  assert (Hs : pre ++ String a (String b r) = (pre ++ String a "") ++ String b r)
    by (rewrite append_assoc; reflexivity).
  assert (Hi : strlen pre + 1 = strlen (pre ++ String a ""))
    by (rewrite strlen_append, strlen_String; reflexivity).
  assert (Hc : charAt (strlen pre + 1) (pre ++ String a (String b r)) = b).
  { rewrite Hs, Hi. apply charAt_append. rewrite <- Hs. exact Hfit. }
  rewrite Hc.
  rewrite setCharAt_append by exact Hfit.
  assert (Hs' : pre ++ String b (String b r) = (pre ++ String b "") ++ String b r)
    by (rewrite append_assoc; reflexivity).
  assert (Hi' : strlen pre + 1 = strlen (pre ++ String b ""))
    by (rewrite strlen_append, strlen_String; reflexivity).
  rewrite Hs', Hi'. rewrite IH.
  - rewrite append_assoc. reflexivity.
  - rewrite <- Hs'.
    rewrite strlen_append, !strlen_String in *. exact Hfit.
Qed.

Lemma receive_buffer (c : ascii) (st : State) :
  strlen (commandFromComputerString st) <= 65535 ->
  commandFromComputerString (receive c st)
  = (if strlen (commandFromComputerString st) <? commandFromComputerMaxLength
     then commandFromComputerString st
     else drop 1 (commandFromComputerString st)) ++ String c "".
Proof.
  intros Hfit. unfold receive.
  assert (Hbuf : forall (s : string) (b : bool), commandFromComputerString
                     (if b then set_complete true (set_string s st)
                      else set_string s st) = s) by (now intros s []).
  rewrite Hbuf.
  destruct (strlen (commandFromComputerString st) <? commandFromComputerMaxLength)
    eqn:E; [reflexivity |].
  apply Z.ltb_ge in E. unfold commandFromComputerMaxLength in E.
  destruct (commandFromComputerString st) as [| a rest];
    [cbn in E; lia |].
  rewrite strlen_String in *. pose proof (strlen_nonneg rest).
  replace (strlen rest + 1 - 1) with (strlen rest) by lia.
  rewrite cast_uint_small by lia.
  replace (Z.to_nat (strlen rest)) with (String.length rest)
    by (unfold strlen; now rewrite Nat2Z.id).
  change 0 with (strlen "").
  change (String a rest) with ("" ++ String a rest).
  rewrite shift_down_spec
    by (cbn [append]; rewrite strlen_String; lia).
  cbn [append drop].
  replace (strlen (rest ++ String (last_char a rest) "") - 1)
    with (strlen rest)
    by (rewrite strlen_append, strlen_String; cbn; lia).
  apply setCharAt_append.
  rewrite strlen_append, strlen_String. cbn. lia.
Qed.

Lemma last_chars_short (n : nat) (s : string) :
  (String.length s <= n)%nat -> last_chars n s = s.
Proof.
  intros H. unfold last_chars.
  replace (String.length s - n)%nat with 0%nat by lia. reflexivity.
Qed.

Lemma last_chars_cons (n : nat) (a : ascii) (s : string) :
  (n <= String.length s)%nat -> last_chars n (String a s) = last_chars n s.
Proof.
  intros H. unfold last_chars. cbn [String.length].
  replace (S (String.length s) - n)%nat with (S (String.length s - n)) by lia.
  reflexivity.
Qed.

Lemma serialEvent_buffer (rx : string) :
  forall st,
    (String.length (commandFromComputerString st) <= capacity)%nat ->
    (String.length (commandFromComputerString (serialEvent rx st)) <= capacity)%nat
    /\ commandFromComputerString (serialEvent rx st)
       = last_chars capacity (commandFromComputerString st ++ rx).
Proof.
  unfold capacity, commandFromComputerMaxLength.
  change (Z.to_nat 256) with 256%nat.
  induction rx as [| c rx IH]; intros st Hlen; cbn [serialEvent].
  - rewrite append_empty, last_chars_short by exact Hlen. auto.
  - assert (Hfit : strlen (commandFromComputerString st) <= 65535)
      by (unfold strlen; lia).
    pose proof (receive_buffer c st Hfit) as Hb.
    unfold commandFromComputerMaxLength in Hb.
    destruct (strlen (commandFromComputerString st) <? 256) eqn:E.
    + apply Z.ltb_lt in E. unfold strlen in E.
      destruct (IH (receive c st)) as [H1 H2].
      { rewrite Hb, length_append. cbn. lia. }
      split; [exact H1 |].
      rewrite H2, Hb, append_assoc. reflexivity.
    + apply Z.ltb_ge in E. unfold strlen in E.
      destruct (commandFromComputerString st) as [| a rest] eqn:Es;
        [cbn in E; lia |].
      cbn [String.length] in E, Hlen. cbn [drop] in Hb.
      destruct (IH (receive c st)) as [H1 H2].
      { rewrite Hb, length_append. cbn. lia. }
      split; [exact H1 |].
      rewrite H2, Hb, append_assoc. cbn [append].
      rewrite last_chars_cons; [reflexivity |].
      rewrite length_append. cbn. lia.
Qed.

Lemma buffer_window (st : State) (rx : string) (c : ascii) :
  (String.length (commandFromComputerString st) <= capacity)%nat ->
  (String.length (commandFromComputerString (receive c st)) <= capacity)%nat
  /\ (String.length (commandFromComputerString (serialEvent rx st))
      <= capacity)%nat
  /\ commandFromComputerString (receive c st)
     = (if (String.length (commandFromComputerString st) <? capacity)%nat
        then commandFromComputerString st
        else drop 1 (commandFromComputerString st)) ++ String c ""
  /\ commandFromComputerString (serialEvent rx st)
     = last_chars capacity (commandFromComputerString st ++ rx).
Proof.
  intros Hlen.
  destruct (serialEvent_buffer rx st Hlen) as [H1 H2].
  destruct (serialEvent_buffer (String c "") st Hlen) as [H3 _].
  cbn [serialEvent] in H3.
  repeat split; try assumption.
  rewrite receive_buffer
    by (unfold capacity, commandFromComputerMaxLength in Hlen;
        unfold strlen; lia).
  replace (strlen (commandFromComputerString st) <? commandFromComputerMaxLength)
    with (String.length (commandFromComputerString st) <? capacity)%nat;
    [reflexivity |].
  unfold capacity, strlen, commandFromComputerMaxLength.
  destruct (Nat.ltb_spec (String.length (commandFromComputerString st))
                         (Z.to_nat 256));
    symmetry; [apply Z.ltb_lt | apply Z.ltb_ge]; lia.
Qed.

(** ** Queries *)

Lemma dispatch_line_status (st : State) :
  dispatch_line "Status?" st
  = mkState "" false (dyeInjected st)
            (injectionStageSpeeds st) (injectionStageSteps st)
            (serial_tx st ++ [("OK" ++ nl)%string])%list (motor st).
Proof. reflexivity. Qed.

Lemma status_repeated (n : nat) (st : State) :
  device (Nat.iter n (dispatch_line "Status?") st) = device st
  /\ serial_tx (Nat.iter n (dispatch_line "Status?") st)
     = (serial_tx st ++ repeat ("OK" ++ nl)%string n)%list.
Proof.
  induction n as [| n [IHd IHt]].
  - cbn. now rewrite app_nil_r.
  - rewrite Nat.iter_succ. cbn [repeat].
    rewrite dispatch_line_status. unfold device in *.
    cbn [dyeInjected injectionStageSpeeds injectionStageSteps motor serial_tx].
    split; [exact IHd |].
    rewrite IHt, <- app_assoc. f_equal. symmetry. apply repeat_cons.
Qed.

(** C9: each of the six queries leaves the counter, the stage arrays
    and the motor as they were; and however many times "Status?" is
    dispatched, from whatever state, every answer is "OK" and
    dyeInjected keeps its value. *)
Theorem queries_leave_state (st : State) (q rest : string)
        (st0 : State) (n : nat) :
  commandFromComputerComplete st = true ->
  commandFromComputerString st = q ++ nl ++ rest ->
  In q query_commands ->
  indexable (commandFromComputerString st) ->
  device (loop st) = device st
  /\ device (Nat.iter n (dispatch_line "Status?") st0) = device st0
  /\ serial_tx (Nat.iter n (dispatch_line "Status?") st0)
     = (serial_tx st0 ++ repeat ("OK" ++ nl)%string n)%list.
Proof.
  intros Hc Hs Hq Hfit. split; [| apply status_repeated].
  unfold query_commands in Hq. cbn [In] in Hq.
  repeat destruct Hq as [<- | Hq]; try contradiction;
    rewrite (loop_line st _ rest Hc Hs) by (reflexivity || assumption);
    reflexivity.
Qed.

(** ** The line buffer and [loop] together *)

Lemma capacity_indexable (s : string) :
  (String.length s <= capacity)%nat -> indexable s.
Proof.
  unfold capacity, commandFromComputerMaxLength, indexable, strlen. lia.
Qed.

Lemma reachable_capacity (st : State) :
  reachable st ->
  (String.length (commandFromComputerString st) <= capacity)%nat.
Proof.
  induction 1 as [| rx st _ IH | st _ IH].
  - cbn. lia.
  - now apply serialEvent_buffer.
  - unfold loop. destruct (commandFromComputerComplete st); [cbn; lia | exact IH].
Qed.

Lemma reachable_indexable (st : State) :
  reachable st -> indexable (commandFromComputerString st).
Proof. intros H. now apply capacity_indexable, reachable_capacity. Qed.

Lemma receive_state (c : ascii) (st : State) :
  receive c st
  = mkState (commandFromComputerString (receive c st))
            (commandFromComputerComplete st || Ascii.eqb c newline)
            (dyeInjected st) (injectionStageSpeeds st) (injectionStageSteps st)
            (serial_tx st) (motor st).
Proof.
  unfold receive. destruct (Ascii.eqb c newline); cbn.
  - now rewrite orb_true_r.
  - now rewrite orb_false_r.
Qed.

Lemma serialEvent_state (rx : string) :
  forall st,
    serialEvent rx st
    = mkState (commandFromComputerString (serialEvent rx st))
              (commandFromComputerComplete st || has_char newline rx)
              (dyeInjected st) (injectionStageSpeeds st) (injectionStageSteps st)
              (serial_tx st) (motor st).
Proof.
  induction rx as [| c rx IH]; intros st; cbn [serialEvent has_char].
  - rewrite orb_false_r. now destruct st.
  - rewrite IH at 1. rewrite (receive_state c st) at 2 3 4 5 6 7.
    cbn. now rewrite orb_assoc.
Qed.

Lemma drop_append_le (k : nat) (s t : string) :
  (k <= String.length s)%nat -> drop k (s ++ t) = drop k s ++ t.
Proof.
  revert k. induction s as [| x s IH]; intros k Hk.
  - cbn in Hk. now replace k with 0%nat by lia.
  - destruct k as [| k]; [reflexivity |].
    cbn [append drop]. apply IH. cbn in Hk. lia.
Qed.

Lemma last_chars_snoc (n : nat) (s : string) (c : ascii) :
  (n <= String.length s)%nat ->
  last_chars (S n) (s ++ String c "") = last_chars n s ++ String c "".
Proof.
  intros H. unfold last_chars. rewrite length_append. cbn [String.length].
  replace (String.length s + 1 - S n)%nat with (String.length s - n)%nat by lia.
  apply drop_append_le. lia.
Qed.

Lemma has_char_drop (ch : ascii) (k : nat) (s : string) :
  has_char ch s = false -> has_char ch (drop k s) = false.
Proof.
  revert k. induction s as [| x s IH]; intros [| k] H; cbn; auto.
  cbn in H. apply orb_false_elim in H as [_ H]. now apply IH.
Qed.

(** On a String without NUL byte the two readings of [indexOf] and
    [substring] agree, and its substrings hold no NUL byte either; the
    command [loop] hands to the comparisons and to
    [processInjectCommand] is such a String. *)
Lemma has_char_take (ch : ascii) (k : nat) (s : string) :
  has_char ch s = false -> has_char ch (take k s) = false.
Proof.
  revert k. induction s as [| x s IH]; intros [| k] H; cbn; auto.
  cbn in H. apply orb_false_elim in H as [Hx H]. rewrite Hx. now apply IH.
Qed.

Lemma has_char_substring (ch : ascii) (left right : Z) (s : string) :
  has_char ch s = false -> has_char ch (substring left right s) = false.
Proof.
  intros H. unfold substring.
  destruct (cast_uint left >? cast_uint right);
    match goal with
    | |- context [if ?a >? strlen s then _ else _] =>
        destruct (a >? strlen s); [reflexivity |]
    end;
    now apply has_char_take, has_char_drop.
Qed.

Lemma indexOf_raw_clean (ch : ascii) (s : string) :
  has_char Ascii.zero s = false -> indexOf_raw ch s = indexOf ch s.
Proof. intros H. unfold indexOf_raw. now rewrite c_str_clean. Qed.

Lemma substring_raw_clean (left right : Z) (s : string) :
  has_char Ascii.zero s = false ->
  substring_raw left right s = substring left right s.
Proof.
  intros H. unfold substring_raw. apply c_str_clean.
  now apply has_char_substring.
Qed.

Lemma pending_command_clean (st : State) :
  has_char Ascii.zero (pending_command st) = false.
Proof. apply c_str_nul_free. Qed.

Lemma last_chars_line (n : nat) (s : string) (c : ascii) :
  last_chars (S n) (s ++ String c "") = last_chars n s ++ String c "".
Proof.
  destruct (Nat.le_gt_cases n (String.length s)) as [H | H].
  - now apply last_chars_snoc.
  - rewrite !last_chars_short; [reflexivity | lia |].
    rewrite length_append. cbn [String.length]. lia.
Qed.

(** A line received with its newline on an empty buffer, and [loop]
    run on it. *)
Lemma receive_line (st : State) (line : string) :
  commandFromComputerString st = "" ->
  has_char newline line = false ->
  has_char Ascii.zero line = false ->
  commandFromComputerString (serialEvent (line ++ nl) st)
  = last_chars (capacity - 1) line ++ nl
  /\ loop (serialEvent (line ++ nl) st)
     = set_complete false
         (set_string ""
            (dispatch (set_string (last_chars (capacity - 1) line)
                                  (set_complete true st)))).
Proof.
  intros Hs Hnl Hz.
  destruct (serialEvent_buffer (line ++ nl) st) as [Hcap Hbuf];
    [rewrite Hs; cbn; lia |].
  rewrite Hs in Hbuf. cbn [append] in Hbuf.
  unfold capacity, commandFromComputerMaxLength in *.
  change (Z.to_nat 256) with (S 255) in Hbuf, Hcap.
  change (Z.to_nat 256 - 1)%nat with 255%nat in *.
  assert (Hl : last_chars (S 255) (line ++ nl) = last_chars 255 line ++ nl)
    by apply last_chars_line.
  rewrite Hl in Hbuf. split; [exact Hbuf |].
  assert (Hin : has_char newline (line ++ nl) = true)
    by (rewrite has_char_append; cbn; now rewrite orb_true_r).
  rewrite (loop_line (serialEvent (line ++ nl) st)
                     (last_chars 255 line) "").
  - rewrite serialEvent_state, Hbuf, Hin, orb_true_r. reflexivity.
  - rewrite serialEvent_state. cbn [commandFromComputerComplete].
    now rewrite Hin, orb_true_r.
  - rewrite Hbuf. now rewrite append_empty.
  - unfold last_chars. now apply has_char_drop.
  - unfold last_chars. now apply has_char_drop.
  - unfold indexable, strlen. lia.
Qed.

(** C5 (as the sketch behaves): the line buffer never holds more than
    its capacity of 256 characters; a byte that arrives when the buffer
    is full evicts the first character and is put at the end, so the
    buffer is made of the last 256 characters received, the newline
    among them; and the command text parsed for a line (without NUL
    byte) received on an empty buffer is made of the last 255 characters
    of the line, the whole line when it is shorter. *)
Theorem line_buffer_window (st : State) (rx : string) (c : ascii)
        (st0 : State) (line : string) :
  (String.length (commandFromComputerString st) <= capacity)%nat ->
  commandFromComputerString st0 = "" ->
  has_char newline line = false ->
  has_char Ascii.zero line = false ->
  (String.length (commandFromComputerString (receive c st)) <= capacity)%nat
  /\ (String.length (commandFromComputerString (serialEvent rx st))
      <= capacity)%nat
  /\ commandFromComputerString (receive c st)
     = (if (String.length (commandFromComputerString st) <? capacity)%nat
        then commandFromComputerString st
        else drop 1 (commandFromComputerString st)) ++ String c ""
  /\ commandFromComputerString (serialEvent rx st)
     = last_chars capacity (commandFromComputerString st ++ rx)
  /\ commandFromComputerString (serialEvent (line ++ nl) st0)
     = last_chars (capacity - 1) line ++ nl
  /\ loop (serialEvent (line ++ nl) st0)
     = set_complete false
         (set_string ""
            (dispatch (set_string (last_chars (capacity - 1) line)
                                  (set_complete true st0)))).
Proof.
  intros Hlen Hs Hnl Hz.
  destruct (buffer_window st rx c Hlen) as (H1 & H2 & H3 & H4).
  destruct (receive_line st0 line Hs Hnl Hz) as (H5 & H6).
  repeat split; assumption.
Qed.

Lemma length_drop (k : nat) (s : string) :
  String.length (drop k s) = (String.length s - k)%nat.
Proof.
  revert k. induction s as [| x s IH]; intros [| k]; cbn; auto.
Qed.

(** X2: a line (without NUL byte) longer than the buffer keeps its last
    255 characters: the newline takes the last of the 256 slots, and
    what loop dispatches is the text before it, 255 characters long. *)
Theorem long_line_dispatch (st : State) (line : string) :
  commandFromComputerString st = "" ->
  has_char newline line = false ->
  has_char Ascii.zero line = false ->
  (capacity - 1 <= String.length line)%nat ->
  commandFromComputerString (serialEvent (line ++ nl) st)
  = last_chars (capacity - 1) line ++ nl
  /\ String.length (last_chars (capacity - 1) line) = (capacity - 1)%nat
  /\ loop (serialEvent (line ++ nl) st)
     = set_complete false
         (set_string ""
            (dispatch (set_string (last_chars (capacity - 1) line)
                                  (set_complete true st)))).
Proof.
  intros Hs Hnl Hz Hlen.
  destruct (receive_line st line Hs Hnl Hz) as [Hbuf Hloop].
  split; [exact Hbuf |]. split; [| exact Hloop].
  unfold last_chars. rewrite length_drop. lia.
Qed.

(** X1: when 256 bytes (none of them NUL) follow a newline within one
    serialEvent, the newline is shifted out of the buffer while the flag
    stays set: loop then finds no newline and dispatches the whole
    buffer, that is, 256 bytes that arrived after the newline. *)
Theorem evicted_newline_dispatch (st : State) (rx : string) :
  commandFromComputerString st = "" ->
  has_char newline rx = false ->
  has_char Ascii.zero rx = false ->
  String.length rx = capacity ->
  commandFromComputerString (serialEvent (nl ++ rx) st) = rx
  /\ commandFromComputerComplete (serialEvent (nl ++ rx) st) = true
  /\ loop (serialEvent (nl ++ rx) st)
     = set_complete false
         (set_string "" (dispatch (set_string rx (set_complete true st)))).
Proof.
  intros Hs Hnl Hz Hlen.
  change (nl ++ rx) with (String newline rx).
  destruct (serialEvent_buffer (String newline rx) st) as [_ Hbuf];
    [rewrite Hs; cbn; lia |].
  rewrite Hs in Hbuf. cbn [append] in Hbuf.
  rewrite last_chars_cons, last_chars_short in Hbuf by lia.
  assert (Hflag : commandFromComputerComplete
                    (serialEvent (String newline rx) st) = true).
  { rewrite serialEvent_state. cbn. now rewrite orb_true_r. }
  split; [exact Hbuf |]. split; [exact Hflag |].
  rewrite loop_without_terminator.
  - rewrite serialEvent_state, Hbuf.
    replace (has_char newline (String newline rx)) with true by reflexivity.
    rewrite orb_true_r. cbn [commandFromComputerString].
    rewrite c_str_clean by exact Hz. reflexivity.
  - exact Hflag.
  - now rewrite Hbuf.
  - rewrite Hbuf. unfold indexable, strlen. rewrite Hlen.
    unfold capacity, commandFromComputerMaxLength. lia.
Qed.

(** ** Bounds and frame of [processInjectCommand] *)

Lemma cast_int_range (z : Z) : -32768 <= cast_int z <= 32767.
Proof.
  unfold cast_int. pose proof (Z.mod_pos_bound (z + 32768) 65536). lia.
Qed.

Lemma cast_uint_range (z : Z) : 0 <= cast_uint z <= 65535.
Proof. unfold cast_uint. pose proof (Z.mod_pos_bound z 65536). lia. Qed.

Lemma array_set_within (lo hi i v : Z) (a : stage_array) :
  lo <= v <= hi -> array_within lo hi a -> array_within lo hi (array_set i v a).
Proof.
  unfold array_within, array_set. intros Hv Ha.
  destruct i as [| [[p | p |] | [p | p |] |] |]; cbn; tauto.
Qed.

Lemma array_get_within (lo hi i : Z) (a : stage_array) :
  lo <= 0 <= hi -> array_within lo hi a -> lo <= array_get i a <= hi.
Proof.
  unfold array_within, array_get. intros H0 Ha.
  destruct i as [| [[p | p |] | [p | p |] |] |]; cbn; tauto.
Qed.

Lemma read_stages_range (remaining : nat) :
  forall numberStages s st,
    (fst (read_stages remaining numberStages s st) = -1
     \/ numberStages <= fst (read_stages remaining numberStages s st)
                     <= numberStages + Z.of_nat remaining)
    /\ outside_arrays (snd (read_stages remaining numberStages s st))
       = outside_arrays st
    /\ (arrays_in_range st ->
        arrays_in_range (snd (read_stages remaining numberStages s st))).
Proof.
  induction remaining as [| r IH]; intros n s st; cbn [read_stages].
  - cbn. auto.
  - destruct (indexOf " " s =? -1).
    + cbn [fst snd]. split; [| auto].
      destruct (strlen s =? 0); [right; lia | now left].
    + destruct (indexOf "," (substring_from (indexOf " " s + 1) s) =? -1).
      * cbn [fst snd]. split; [right; lia |]. split; [reflexivity |].
        unfold arrays_in_range. cbn. intros [Hst Hsp]. split.
        -- apply array_set_within; [apply cast_int_range | exact Hst].
        -- apply array_set_within; [apply cast_uint_range | exact Hsp].
      * match goal with
        | |- context [read_stages r ?m ?t ?u] =>
            destruct (IH m t u) as (Hn & Hout & Hin)
        end.
        split; [| split].
        -- destruct Hn as [Hn | Hn]; [now left | right; lia].
        -- rewrite Hout. reflexivity.
        -- intros [Hst Hsp]. apply Hin. unfold arrays_in_range. cbn. split.
           ++ apply array_set_within; [apply cast_int_range | exact Hst].
           ++ apply array_set_within; [apply cast_uint_range | exact Hsp].
Qed.

Lemma processInjectCommand_range (s : string) (st : State) :
  -1 <= fst (processInjectCommand s st) <= Z.of_nat MAX_INJECTION_STAGES
  /\ (fst (processInjectCommand s st) <> -1 -> startsWith s "Inject: " = true)
  /\ outside_arrays (snd (processInjectCommand s st)) = outside_arrays st
  /\ (arrays_in_range st -> arrays_in_range (snd (processInjectCommand s st))).
Proof.
  unfold processInjectCommand.
  destruct (startsWith s "Inject: "); cbn [negb].
  - destruct (read_stages_range MAX_INJECTION_STAGES 0 (substring_from 8 s) st)
      as (Hn & Hout & Hin).
    split; [| auto]. destruct Hn as [-> | Hn]; [cbn |]; lia.
  - cbn. split; [lia |]. split; [intros H; now elim H | auto].
Qed.

(** X3: whatever the text, processInjectCommand returns -1 or a number of
    stages from 0 to 4, so the stage loop of loop stays inside the two
    arrays; a number other than -1 is returned only for a text that
    starts with "Inject: "; and nothing but the two arrays is written. *)
Theorem processInjectCommand_bounds (s : string) (st : State) :
  -1 <= fst (processInjectCommand s st) <= Z.of_nat MAX_INJECTION_STAGES
  /\ (fst (processInjectCommand s st) <> -1 -> startsWith s "Inject: " = true)
  /\ outside_arrays (snd (processInjectCommand s st)) = outside_arrays st.
Proof.
  destruct (processInjectCommand_range s st) as (H1 & H2 & H3 & _). auto.
Qed.

(** ** What the motor has done and what the counter holds *)

Lemma stored_stages_ext (count : nat) :
  forall i st st',
    injectionStageSteps st' = injectionStageSteps st ->
    injectionStageSpeeds st' = injectionStageSpeeds st ->
    stored_stages count i st' = stored_stages count i st.
Proof.
  induction count as [| c IH]; intros i st st' Hst Hsp; cbn [stored_stages];
    [reflexivity |].
  rewrite Hst, Hsp. f_equal. now apply IH.
Qed.

Lemma stored_stages_in_range (count : nat) :
  forall i st,
    arrays_in_range st ->
    forallb stage_in_range (stored_stages count i st) = true.
Proof.
  induction count as [| c IH]; intros i st Hin; cbn [stored_stages forallb];
    [reflexivity |].
  rewrite IH by exact Hin. rewrite andb_true_r.
  destruct Hin as [Hst Hsp].
  pose proof (array_get_within (-32768) 32767 i _ ltac:(lia) Hst).
  pose proof (array_get_within 0 65535 i _ ltac:(lia) Hsp).
  unfold stage_in_range. cbn [fst snd].
  repeat (apply andb_true_iff; split); apply Z.leb_le; lia.
Qed.

Lemma run_stages_spec (count : nat) :
  forall i st,
    arrays_in_range st ->
    run_stages count i st
    = mkState (commandFromComputerString st) (commandFromComputerComplete st)
              (add_volumes (dyeInjected st) (stored_stages count i st))
              (injectionStageSpeeds st) (injectionStageSteps st)
              (serial_tx st)
              (motor st ++ flat_map stage_calls (stored_stages count i st)).
Proof.
  induction count as [| c IH]; intros i st Hin;
    cbn [run_stages stored_stages flat_map add_volumes fold_left].
  - rewrite app_nil_r. now destruct st.
  - rewrite IH by exact Hin.
    rewrite (stored_stages_ext c (i + 1) st (run_stage i st)) by reflexivity.
    destruct Hin as [Hst _].
    pose proof (array_get_within (-32768) 32767 i _ ltac:(lia) Hst) as Hi.
    unfold run_stage, stage_calls, stage_volume.
    cbn [drive set_dyeInjected commandFromComputerString
         commandFromComputerComplete dyeInjected injectionStageSpeeds
         injectionStageSteps serial_tx motor fst snd].
    rewrite (cast_uint_abs_int _ Hi). rewrite <- !app_assoc. reflexivity.
Qed.

(** ** Stage lists that end in a comma or in a lone token *)

Lemma read_stages_then (stages : list (string * string)) :
  forall remaining numberStages tail st,
    stages <> [] ->
    forallb stage_ok stages = true ->
    indexable (stage_list_text stages ++ "," ++ tail) ->
    read_stages remaining numberStages (stage_list_text stages ++ "," ++ tail) st
    = if (List.length stages <=? remaining)%nat
      then read_stages (remaining - List.length stages)
                       (numberStages + Z.of_nat (List.length stages)) tail
                       (store_stages numberStages stages st)
      else (-1, store_stages numberStages (firstn remaining stages) st).
Proof.
  induction stages as [| t stages IH]; intros remaining n tail st Hne Hok Hfit;
    [contradiction |].
  cbn [forallb] in Hok. apply andb_true_iff in Hok as [Ht Hok].
  destruct (stage_ok_tokens t Ht) as [Hsp Hco].
  destruct remaining as [| r]; [reflexivity |].
  assert (Hstep : forall x,
             indexable (fst t ++ String " " (snd t ++ String "," x)) ->
             read_stages (S r) n (fst t ++ String " " (snd t ++ String "," x)) st
             = read_stages r (n + 1) x
                 (set_speed_at n (cast_uint (toInt (snd t)))
                    (set_steps_at n (cast_int (toInt (fst t))) st))).
  { intros x Hx. cbn [read_stages].
    rewrite indexOf_first by assumption.
    rewrite eqb_minus_one by apply strlen_nonneg.
    rewrite substring_head by now apply indexable_65535.
    rewrite substring_tail by now apply indexable_65535.
    apply indexable_tail in Hx.
    change (String " " ?y) with (" " ++ y) in Hx.
    apply indexable_tail in Hx.
    rewrite indexOf_first by assumption.
    rewrite eqb_minus_one by apply strlen_nonneg.
    rewrite substring_head by now apply indexable_65535.
    rewrite substring_tail by now apply indexable_65535.
    reflexivity. }
  destruct stages as [| t' stages].
  - rewrite stage_list_text_one in *. rewrite append_assoc in *.
    cbn [append] in *. rewrite Hstep by exact Hfit.
    cbn [List.length Nat.leb Nat.sub store_stages]. rewrite Nat.sub_0_r.
    reflexivity.
  - rewrite stage_list_text_cons in *. rewrite !append_assoc in *.
    cbn [append] in *. rewrite append_assoc in *. cbn [append] in *.
    rewrite Hstep by exact Hfit.
    apply indexable_tail in Hfit.
    change (String " " ?y) with (" " ++ y) in Hfit.
    apply indexable_tail in Hfit.
    apply indexable_tail in Hfit.
    change (String "," ?y) with ("," ++ y) in Hfit.
    apply indexable_tail in Hfit.
    rewrite IH by (assumption || discriminate).
    change (List.length (t :: t' :: stages) <=? S r)%nat
      with (List.length (t' :: stages) <=? r)%nat.
    change (S r - List.length (t :: t' :: stages))%nat
      with (r - List.length (t' :: stages))%nat.
    destruct (List.length (t' :: stages) <=? r)%nat; [| reflexivity].
    change (List.length (t :: t' :: stages))
      with (S (List.length (t' :: stages))).
    cbn [store_stages]. f_equal. lia.
Qed.

Lemma read_stages_end (remaining : nat) (numberStages : Z) (st : State) :
  read_stages remaining numberStages "" st
  = (match remaining with O => -1 | S _ => numberStages end, st).
Proof. destruct remaining; reflexivity. Qed.

Lemma read_stages_lone_token (remaining : nat) (numberStages : Z)
      (tail : string) (st : State) :
  tail <> "" -> has_char " " tail = false ->
  read_stages remaining numberStages tail st = (-1, st).
Proof.
  intros Hne Hsp. destruct remaining as [| r]; [reflexivity |].
  cbn [read_stages]. rewrite indexOf_absent by exact Hsp.
  change (-1 =? -1) with true. cbv iota.
  destruct tail as [| c tail]; [contradiction |].
  rewrite strlen_String. rewrite (proj2 (Z.eqb_neq _ 0)); [reflexivity |].
  pose proof (strlen_nonneg tail). lia.
Qed.

(** X5: a stage list that ends in a comma is accepted when it has one to
    three stages, with exactly the stages before the comma; with four
    stages the trailing comma makes the command invalid. *)
Theorem trailing_comma (st : State) (stages : list (string * string)) :
  (1 <= List.length stages <= 4)%nat ->
  forallb stage_ok stages = true ->
  indexable (inject_text stages ++ ",") ->
  processInjectCommand (inject_text stages ++ ",") st
  = (if (List.length stages <=? 3)%nat then Z.of_nat (List.length stages) else -1,
     store_stages 0 stages st).
Proof.
  intros Hlen Hok Hfit.
  assert (Hne : stages <> []) by (intros ->; cbn in Hlen; lia).
  unfold processInjectCommand, inject_text in *.
  rewrite append_assoc in *. rewrite startsWith_inject. cbn [negb].
  rewrite substring_from_prefix by exact Hfit.
  apply (indexable_tail "Inject: ") in Hfit.
  change "," with ("," ++ "") in Hfit |- *.
  rewrite read_stages_then by assumption.
  replace (List.length stages <=? MAX_INJECTION_STAGES)%nat with true
    by (symmetry; apply Nat.leb_le; unfold MAX_INJECTION_STAGES; lia).
  rewrite read_stages_end. unfold MAX_INJECTION_STAGES.
  destruct (Nat.leb_spec (List.length stages) 3) as [H3 | H3].
  - replace (4 - List.length stages)%nat
      with (S (3 - List.length stages)) by lia.
    reflexivity.
  - replace (4 - List.length stages)%nat with 0%nat by lia. reflexivity.
Qed.

(** X6: a stage list whose last piece, after the last comma or alone, is
    a token with no space in it (a stage without its speed) makes the
    command invalid, however many stages stand before it. *)
Theorem lone_token_invalid (st : State) (stages : list (string * string))
        (tail : string) :
  forallb stage_ok stages = true ->
  tail <> "" ->
  has_char " " tail = false ->
  indexable ("Inject: " ++ stage_list_then stages tail) ->
  fst (processInjectCommand ("Inject: " ++ stage_list_then stages tail) st) = -1.
Proof.
  intros Hok Hne Hsp Hfit.
  unfold processInjectCommand.
  rewrite startsWith_inject. cbn [negb].
  rewrite substring_from_prefix by exact Hfit.
  apply (indexable_tail "Inject: ") in Hfit.
  destruct stages as [| t stages]; cbn [stage_list_then] in *.
  - now rewrite read_stages_lone_token.
  - rewrite read_stages_then by (assumption || discriminate).
    destruct (List.length (t :: stages) <=? MAX_INJECTION_STAGES)%nat;
      [| reflexivity].
    now rewrite read_stages_lone_token.
Qed.

(** ** Numerals out of range and numerals followed by other text *)

Lemma stored_stage_wrapped (stage : Z * Z) :
  cast_int (toInt (fst (stage_tokens stage))) = fst (wrap_stage stage)
  /\ cast_uint (toInt (snd (stage_tokens stage))) = snd (wrap_stage stage)
  /\ cast_uint (abs_int (fst (wrap_stage stage))) = Z.abs (fst (wrap_stage stage)).
Proof.
  unfold stage_tokens, wrap_stage. cbn [fst snd].
  rewrite !toInt_decimal, cast_int_long, cast_uint_long.
  rewrite cast_uint_abs_int by apply cast_int_range. auto.
Qed.

(** X7: an Inject command of one to four stages written in decimal runs,
    whatever the size of its numbers, as the stages whose steps are
    reduced to the 16-bit int and whose speeds are reduced modulo 65536:
    steps beyond 32767 wrap and may turn the motor the other way. *)
Theorem inject_executes_wrapped (st : State) (stages : list (Z * Z))
        (rest : string) :
  commandFromComputerComplete st = true ->
  commandFromComputerString st
  = inject_text (map stage_tokens stages) ++ nl ++ rest ->
  (1 <= List.length stages <= 4)%nat ->
  indexable (commandFromComputerString st) ->
  serial_tx (loop st) = (serial_tx st ++ [("Executing" ++ nl)%string])%list
  /\ motor (loop st)
     = (motor st ++ flat_map stage_calls (map wrap_stage stages))%list
  /\ dyeInjected (loop st)
     = add_volumes (dyeInjected st) (map wrap_stage stages).
Proof.
  intros Hc Hs Hlen Hfit.
  rewrite (loop_line st _ rest Hc Hs
             (has_char_inject_text _ (stage_ok_decimal stages))
             (nul_free_decimal_stages stages) Hfit).
  rewrite Hs in Hfit. apply indexable_head in Hfit.
  rewrite (dispatch_inject (stage_list_text (map stage_tokens stages)))
    by reflexivity.
  fold (inject_text (map stage_tokens stages)).
  assert (Hne : map stage_tokens stages <> [])
    by (destruct stages; [cbn in Hlen; lia | discriminate]).
  rewrite processInjectCommand_text
    by (try apply stage_ok_decimal; assumption).
  rewrite length_map.
  replace (List.length stages <=? MAX_INJECTION_STAGES)%nat with true
    by (symmetry; apply Nat.leb_le; unfold MAX_INJECTION_STAGES; lia).
  rewrite (eqb_minus_one (Z.of_nat (List.length stages))) by lia.
  rewrite Nat2Z.id.
  destruct stages as [| s1 [| s2 [| s3 [| s4 [| s5 stages]]]]];
    cbn [List.length] in Hlen; try lia; clear Hlen Hne Hfit;
    try destruct (stored_stage_wrapped s1) as (? & ? & ?);
    try destruct (stored_stage_wrapped s2) as (? & ? & ?);
    try destruct (stored_stage_wrapped s3) as (? & ? & ?);
    try destruct (stored_stage_wrapped s4) as (? & ? & ?);
    cbn [map store_stages run_stages run_stage Z.add Pos.add Pos.succ
         array_get array_set set_speed_at set_steps_at print drive
         set_dyeInjected set_complete set_string
         injectionStageSpeeds injectionStageSteps serial_tx motor
         dyeInjected cell0 cell1 cell2 cell3
         flat_map stage_calls List.length List.app
         add_volumes fold_left stage_volume];
    repeat match goal with
           | H : _ = _ |- _ => rewrite H; clear H
           end;
    rewrite <- ?app_assoc; cbn [List.app]; auto.
Qed.

Lemma atol_digits_stop (u : Decimal.uint) :
  forall acc rest,
    junk_ok rest = true ->
    atol_digits acc (DecimalString.NilEmpty.string_of_uint u ++ rest)
    = atol_digits acc (DecimalString.NilEmpty.string_of_uint u).
Proof.
  induction u; intros acc rest Hj;
    cbn [DecimalString.NilEmpty.string_of_uint append atol_digits];
    try (match goal with
         | |- context [isdigit ?c] => change (isdigit c) with true; cbv iota
         end; now apply IHu).
  destruct rest as [| c rest]; [reflexivity |].
  cbn [junk_ok] in Hj. apply negb_true_iff in Hj.
  cbn [atol_digits]. now rewrite Hj.
Qed.

Lemma atol_uint_junk (u : Decimal.uint) (rest : string) :
  u <> Decimal.Nil ->
  junk_ok rest = true ->
  atol (DecimalString.NilEmpty.string_of_uint u ++ rest)
  = atol (DecimalString.NilEmpty.string_of_uint u).
Proof.
  intros Hu Hj.
  destruct u; try contradiction;
    cbn [DecimalString.NilEmpty.string_of_uint append];
    match goal with
    | |- atol (String ?c ?x) = atol (String ?c ?y) =>
        change (atol (String c x)) with (atol_digits 0 (String c x));
        change (atol (String c y)) with (atol_digits 0 (String c y));
        cbn [atol_digits]; change (isdigit c) with true; cbv iota
    end;
    now apply atol_digits_stop.
Qed.

Lemma toInt_decimal_junk (z : Z) (rest : string) :
  junk_ok rest = true -> toInt (decimal z ++ rest) = cast_long z.
Proof.
  intros Hj. rewrite <- toInt_decimal. unfold toInt, decimal.
  destruct z as [| p | p]; cbn [Z.to_int DecimalString.NilEmpty.string_of_int].
  - apply atol_uint_junk; [discriminate | exact Hj].
  - apply atol_uint_junk;
      [apply DecimalPos.Unsigned.to_uint_nonnil | exact Hj].
  - cbn [append]. rewrite !atol_minus. now rewrite atol_digits_stop.
Qed.

(** C8 (as the sketch behaves): a stage whose steps token or speed
    token does not start, white space and one sign skipped, with a
    decimal digit does not make parsing reject the command: that token's
    value is 0 (so "Inject: abc 60" is one stage of 0 steps at 60 RPM).
    A token that starts with a decimal numeral is read as that numeral,
    whatever follows it, reduced to the 16 bits of its variable. *)
Theorem non_numeric_token_is_zero (st : State)
        (stages : list (string * string)) (i : nat)
        (steps_token speed_token : string) :
  (1 <= List.length stages <= 4)%nat ->
  forallb stage_ok stages = true ->
  indexable (inject_text stages) ->
  nth_error stages i = Some (steps_token, speed_token) ->
  let result := processInjectCommand (inject_text stages) st in
  fst result = Z.of_nat (List.length stages)
  /\ (non_numeric steps_token = true ->
      array_get (Z.of_nat i) (injectionStageSteps (snd result)) = 0)
  /\ (non_numeric speed_token = true ->
      array_get (Z.of_nat i) (injectionStageSpeeds (snd result)) = 0)
  /\ (forall z junk, junk_ok junk = true -> steps_token = decimal z ++ junk ->
      array_get (Z.of_nat i) (injectionStageSteps (snd result)) = cast_int z)
  /\ (forall z junk, junk_ok junk = true -> speed_token = decimal z ++ junk ->
      array_get (Z.of_nat i) (injectionStageSpeeds (snd result)) = cast_uint z).
Proof.
  intros Hlen Hok Hfit Hnth result. subst result.
  destruct (parse_stage_list st stages i _ Hlen Hok Hfit Hnth)
    as (Hn & Hsteps & Hspeed).
  cbn [fst snd] in Hsteps, Hspeed.
  split; [exact Hn |]. repeat split.
  - intros Hnon. rewrite Hsteps, (toInt_non_numeric _ Hnon). reflexivity.
  - intros Hnon. rewrite Hspeed, (toInt_non_numeric _ Hnon). reflexivity.
  - intros z junk Hj ->.
    rewrite Hsteps, toInt_decimal_junk by exact Hj. apply cast_int_long.
  - intros z junk Hj ->.
    rewrite Hspeed, toInt_decimal_junk by exact Hj. apply cast_uint_long.
Qed.

(** X8: a token that starts with a decimal numeral and goes on with text
    that does not start with a digit is read as the numeral: the steps
    token as its number reduced to the 16-bit int, the speed token as its
    number modulo 65536, and the command is accepted. *)
Theorem numeral_prefix_token (st : State) (stages : list (string * string))
        (i : nat) (a b : Z) (ja jb : string) :
  (1 <= List.length stages <= 4)%nat ->
  forallb stage_ok stages = true ->
  indexable (inject_text stages) ->
  nth_error stages i = Some (decimal a ++ ja, decimal b ++ jb) ->
  junk_ok ja = true ->
  junk_ok jb = true ->
  let result := processInjectCommand (inject_text stages) st in
  fst result = Z.of_nat (List.length stages)
  /\ array_get (Z.of_nat i) (injectionStageSteps (snd result)) = cast_int a
  /\ array_get (Z.of_nat i) (injectionStageSpeeds (snd result)) = cast_uint b.
Proof.
  intros Hlen Hok Hfit Hnth Hja Hjb result. subst result.
  destruct (parse_stage_list st stages i _ Hlen Hok Hfit Hnth)
    as (Hn & Hsteps & Hspeed).
  cbn [fst snd] in Hsteps, Hspeed.
  rewrite Hsteps, Hspeed, !toInt_decimal_junk by assumption.
  rewrite cast_int_long, cast_uint_long. auto.
Qed.

(** ** The stage arrays carry nothing from one command to the next *)

Lemma array_get_set_same (n v : Z) (a : stage_array) :
  0 <= n <= 3 -> array_get n (array_set n v a) = v.
Proof.
  intros H.
  assert (Hn : n = 0 \/ n = 1 \/ n = 2 \/ n = 3) by lia.
  destruct Hn as [-> | [-> | [-> | ->]]]; reflexivity.
Qed.

Lemma array_get_set_other (i n v : Z) (a : stage_array) :
  i <> n -> array_get i (array_set n v a) = array_get i a.
Proof.
  intros H.
  destruct n as [| [[p | p |] | [p | p |] |] |]; cbn [array_set];
    try reflexivity;
    destruct i as [| [[q | q |] | [q | q |] |] |]; cbn; try reflexivity;
    now elim H.
Qed.

Lemma agree_below_set (n v : Z) (a b : stage_array) :
  0 <= n <= 3 ->
  agree_below n a b ->
  agree_below (n + 1) (array_set n v a) (array_set n v b).
Proof.
  intros Hn Hab i Hi.
  destruct (Z.eq_dec i n) as [-> | Hne].
  - now rewrite !array_get_set_same.
  - rewrite !array_get_set_other by exact Hne. apply Hab. lia.
Qed.

Lemma agree_below_keep (n v : Z) (a b : stage_array) :
  agree_below n a b -> agree_below n (array_set n v a) (array_set n v b).
Proof.
  intros Hab i Hi. rewrite !array_get_set_other by lia. now apply Hab.
Qed.

Lemma read_stages_agree (remaining : nat) :
  forall numberStages s st st',
    0 <= numberStages ->
    numberStages + Z.of_nat remaining <= 4 ->
    outside_arrays st = outside_arrays st' ->
    agree_below numberStages (injectionStageSteps st) (injectionStageSteps st') ->
    agree_below numberStages (injectionStageSpeeds st) (injectionStageSpeeds st') ->
    fst (read_stages remaining numberStages s st)
    = fst (read_stages remaining numberStages s st')
    /\ outside_arrays (snd (read_stages remaining numberStages s st))
       = outside_arrays (snd (read_stages remaining numberStages s st'))
    /\ (fst (read_stages remaining numberStages s st) <> -1 ->
        agree_below (fst (read_stages remaining numberStages s st))
                    (injectionStageSteps (snd (read_stages remaining numberStages s st)))
                    (injectionStageSteps (snd (read_stages remaining numberStages s st')))
        /\ agree_below (fst (read_stages remaining numberStages s st))
                       (injectionStageSpeeds (snd (read_stages remaining numberStages s st)))
                       (injectionStageSpeeds (snd (read_stages remaining numberStages s st')))).
Proof.
  induction remaining as [| r IH]; intros n s st st' Hn Hmax Hout Hst Hsp;
    cbn [read_stages].
  - cbn. split; [reflexivity |]. split; [exact Hout |]. intros H. now elim H.
  - destruct (indexOf " " s =? -1).
    + cbn [fst snd]. split; [reflexivity |]. split; [exact Hout |].
      destruct (strlen s =? 0); [auto | intros H; now elim H].
    + destruct (indexOf "," (substring_from (indexOf " " s + 1) s) =? -1).
      * cbn [fst snd]. split; [reflexivity |]. split; [exact Hout |].
        intros _. cbn. split.
        -- apply agree_below_set; [lia | exact Hst].
        -- apply agree_below_set; [lia | exact Hsp].
      * apply IH; try lia; try exact Hout; cbn.
        -- apply agree_below_set; [lia | exact Hst].
        -- apply agree_below_set; [lia | exact Hsp].
Qed.

Lemma run_stages_agree (count : nat) :
  forall i st st',
    0 <= i ->
    outside_arrays st = outside_arrays st' ->
    agree_below (i + Z.of_nat count)
                (injectionStageSteps st) (injectionStageSteps st') ->
    agree_below (i + Z.of_nat count)
                (injectionStageSpeeds st) (injectionStageSpeeds st') ->
    outside_arrays (run_stages count i st)
    = outside_arrays (run_stages count i st').
Proof.
  induction count as [| c IH]; intros i st st' Hi Hout Hst Hsp;
    cbn [run_stages]; [exact Hout |].
  apply IH; [lia | | |].
  - unfold outside_arrays in Hout. injection Hout as Hb Hf Hd Ht Hm.
    unfold run_stage, outside_arrays.
    cbn [drive set_dyeInjected commandFromComputerString
         commandFromComputerComplete dyeInjected injectionStageSpeeds
         injectionStageSteps serial_tx motor].
    rewrite (Hst i) by lia. rewrite (Hsp i) by lia.
    now rewrite Hb, Hf, Hd, Ht, Hm.
  - intros j Hj. apply Hst. lia.
  - intros j Hj. apply Hsp. lia.
Qed.

Lemma print_agree (r : string) (st st' : State) :
  outside_arrays st = outside_arrays st' ->
  outside_arrays (print r st) = outside_arrays (print r st').
Proof.
  unfold outside_arrays. intros H. injection H as Hb Hf Hd Ht Hm.
  cbn. now rewrite Hb, Hf, Hd, Ht, Hm.
Qed.

Lemma dispatch_agree (st st' : State) :
  outside_arrays st = outside_arrays st' ->
  outside_arrays (dispatch st) = outside_arrays (dispatch st').
Proof.
  intros Hout. pose proof Hout as Hfields.
  unfold outside_arrays in Hfields. injection Hfields as Hb Hf Hd Ht Hm.
  unfold dispatch. rewrite <- Hb, <- Hd.
  repeat match goal with
         | |- context [if (?a =? ?b)%string then _ else _] =>
             destruct (a =? b)%string; [try (now apply print_agree) |]
         end.
  - apply print_agree. unfold outside_arrays in *. cbn.
    now rewrite Hb, Hf, Ht, Hm.
  - destruct (startsWith (commandFromComputerString st) "Inject: ");
      [| now apply print_agree].
    unfold processInjectCommand.
    destruct (startsWith (commandFromComputerString st) "Inject: ");
      cbn [negb]; [| now apply print_agree].
    destruct (read_stages_agree MAX_INJECTION_STAGES 0
                (substring_from 8 (commandFromComputerString st)) st st')
      as (Hn & Hout' & Hag);
      [lia | cbn; lia | exact Hout | intros i Hi; lia | intros i Hi; lia |].
    destruct (read_stages_range MAX_INJECTION_STAGES 0
                (substring_from 8 (commandFromComputerString st)) st)
      as (Hrange & _).
    destruct (read_stages MAX_INJECTION_STAGES 0
                (substring_from 8 (commandFromComputerString st)) st)
      as [n st1].
    destruct (read_stages MAX_INJECTION_STAGES 0
                (substring_from 8 (commandFromComputerString st)) st')
      as [n' st1'].
    cbn [fst snd] in *. subst n'.
    destruct (Z.eqb_spec n (-1)) as [-> | Hne]; [now apply print_agree |].
    destruct (Hag Hne) as [Hst Hsp].
    assert (Hpos : 0 <= n) by (destruct Hrange; lia).
    apply run_stages_agree; [lia | now apply print_agree | |];
      rewrite Z.add_0_l, Z2Nat.id by exact Hpos; assumption.
Qed.

(** X9: what loop does (the reply, the motor calls, the counter, the
    buffer and its flag afterwards) does not depend on what the two stage
    arrays held before: an Inject command runs only stages it has just
    stored, never values left by an earlier command. *)
Theorem arrays_carry_nothing (st : State) (speeds steps : stage_array) :
  outside_arrays (loop (with_arrays speeds steps st)) = outside_arrays (loop st).
Proof.
  unfold loop. cbn [with_arrays commandFromComputerComplete commandFromComputerString].
  destruct (commandFromComputerComplete st); [| reflexivity].
  match goal with
  | |- outside_arrays (set_complete false (set_string "" (dispatch ?u)))
       = outside_arrays (set_complete false (set_string "" (dispatch ?v))) =>
      assert (H : outside_arrays (dispatch u) = outside_arrays (dispatch v))
        by (apply dispatch_agree; reflexivity)
  end.
  unfold outside_arrays in *. injection H as _ _ Hd Ht Hm.
  cbn. now rewrite Hd, Ht, Hm.
Qed.

(** ** The stages run and the counter over a whole run *)

Lemma read_stages_same (remaining : nat) :
  forall numberStages s st st',
    0 <= numberStages ->
    numberStages + Z.of_nat remaining <= 4 ->
    agree_below numberStages (injectionStageSteps st) (injectionStageSteps st') ->
    agree_below numberStages (injectionStageSpeeds st) (injectionStageSpeeds st') ->
    fst (read_stages remaining numberStages s st)
    = fst (read_stages remaining numberStages s st')
    /\ (fst (read_stages remaining numberStages s st) <> -1 ->
        agree_below (fst (read_stages remaining numberStages s st))
                    (injectionStageSteps (snd (read_stages remaining numberStages s st)))
                    (injectionStageSteps (snd (read_stages remaining numberStages s st')))
        /\ agree_below (fst (read_stages remaining numberStages s st))
                       (injectionStageSpeeds (snd (read_stages remaining numberStages s st)))
                       (injectionStageSpeeds (snd (read_stages remaining numberStages s st')))).
Proof.
  induction remaining as [| r IH]; intros n s st st' Hn Hmax Hst Hsp;
    cbn [read_stages].
  - cbn. split; [reflexivity |]. intros H. now elim H.
  - destruct (indexOf " " s =? -1).
    + cbn [fst snd]. split; [reflexivity |].
      destruct (strlen s =? 0); [auto | intros H; now elim H].
    + destruct (indexOf "," (substring_from (indexOf " " s + 1) s) =? -1).
      * cbn [fst snd]. split; [reflexivity |].
        intros _. cbn. split.
        -- apply agree_below_set; [lia | exact Hst].
        -- apply agree_below_set; [lia | exact Hsp].
      * apply IH; try lia; cbn.
        -- apply agree_below_set; [lia | exact Hst].
        -- apply agree_below_set; [lia | exact Hsp].
Qed.

Lemma stored_stages_agree (count : nat) :
  forall i st st',
    0 <= i ->
    agree_below (i + Z.of_nat count)
                (injectionStageSteps st) (injectionStageSteps st') ->
    agree_below (i + Z.of_nat count)
                (injectionStageSpeeds st) (injectionStageSpeeds st') ->
    stored_stages count i st = stored_stages count i st'.
Proof.
  induction count as [| c IH]; intros i st st' Hi Hst Hsp;
    cbn [stored_stages]; [reflexivity |].
  rewrite (Hst i), (Hsp i) by lia. f_equal.
  apply IH; [lia | |]; intros j Hj; [apply Hst | apply Hsp]; lia.
Qed.

Lemma stages_of_other (cmd : string) :
  startsWith cmd "Inject: " = false -> stages_of cmd = [].
Proof.
  intros H. unfold stages_of, processInjectCommand. now rewrite H.
Qed.

(** The stages a command runs are those of [stages_of], whatever the
    arrays held before. *)
Lemma dispatch_log (st : State) :
  arrays_in_range st ->
  arrays_in_range (dispatch st)
  /\ forallb stage_in_range (stages_of (commandFromComputerString st)) = true
  /\ motor (dispatch st)
     = (motor st
        ++ flat_map stage_calls (stages_of (commandFromComputerString st)))%list
  /\ dyeInjected (dispatch st)
     = if (commandFromComputerString st =? "ResetDyeInjected")%string
       then float_of_Z 0
       else add_volumes (dyeInjected st)
                        (stages_of (commandFromComputerString st)).
Proof.
  intros Hin. unfold dispatch.
  destruct (String.eqb_spec (commandFromComputerString st) "ResetDyeInjected")
    as [E | E].
  - rewrite E. cbn. rewrite app_nil_r. auto.
  - repeat match goal with
           | |- context [if (commandFromComputerString st =? ?b)%string
                         then _ else _] =>
               destruct (String.eqb_spec (commandFromComputerString st) b)
                 as [E' | E'];
               [first [contradiction
                      | rewrite E'; cbn; rewrite app_nil_r; now auto] |];
               clear E'
           end.
    destruct (startsWith (commandFromComputerString st) "Inject: ") eqn:Hp.
    + unfold stages_of, processInjectCommand. rewrite Hp. cbn [negb].
      destruct (read_stages_same MAX_INJECTION_STAGES 0
                  (substring_from 8 (commandFromComputerString st)) st power_on)
        as (Hn & Hag); [lia | cbn; lia | intros i Hi; lia | intros i Hi; lia |].
      destruct (read_stages_range MAX_INJECTION_STAGES 0
                  (substring_from 8 (commandFromComputerString st)) st)
        as (Hrange & Hout & Hin').
      destruct (read_stages MAX_INJECTION_STAGES 0
                  (substring_from 8 (commandFromComputerString st)) st)
        as [n st1].
      destruct (read_stages MAX_INJECTION_STAGES 0
                  (substring_from 8 (commandFromComputerString st)) power_on)
        as [n0 st0].
      cbn [fst snd] in *. subst n0. specialize (Hin' Hin).
      unfold outside_arrays in Hout. injection Hout as _ _ Hd _ Hm.
      destruct (Z.eqb_spec n (-1)) as [-> | Hne].
      * cbn. rewrite app_nil_r, Hm, Hd. auto.
      * destruct (Hag Hne) as [Hst Hsp].
        assert (Hpos : 0 <= n) by (destruct Hrange; lia).
        assert (Hsame : stored_stages (Z.to_nat n) 0 st1
                        = stored_stages (Z.to_nat n) 0 st0)
          by (apply stored_stages_agree; [lia | |];
              rewrite Z.add_0_l, Z2Nat.id by exact Hpos; assumption).
        rewrite run_stages_spec by exact Hin'.
        cbn [motor dyeInjected print injectionStageSpeeds injectionStageSteps].
        rewrite (stored_stages_ext _ 0 st1 (print ("Executing" ++ nl) st1))
          by reflexivity.
        rewrite <- Hsame, Hm, Hd.
        split; [exact Hin' |].
        split; [now apply stored_stages_in_range | auto].
    + rewrite stages_of_other by exact Hp. cbn. rewrite app_nil_r. auto.
Qed.

Lemma serialEvent_frame (rx : string) (st : State) :
  injectionStageSteps (serialEvent rx st) = injectionStageSteps st
  /\ injectionStageSpeeds (serialEvent rx st) = injectionStageSpeeds st
  /\ motor (serialEvent rx st) = motor st
  /\ dyeInjected (serialEvent rx st) = dyeInjected st.
Proof. rewrite (serialEvent_state rx st). cbn. auto. Qed.

Lemma stage_log_sound (events : list event) :
  forall st ran since,
    arrays_in_range st ->
    forallb stage_in_range ran = true ->
    motor st = flat_map stage_calls ran ->
    dyeInjected st = add_volumes (float_of_Z 0) since ->
    forallb stage_in_range (fst (stage_log events st ran since)) = true
    /\ motor (run events st)
       = flat_map stage_calls (fst (stage_log events st ran since))
    /\ dyeInjected (run events st)
       = add_volumes (float_of_Z 0) (snd (stage_log events st ran since)).
Proof.
  induction events as [| e events IH]; intros st ran since Hin Hok Hm Hd;
    [cbn; auto |].
  unfold run in *. cbn [fold_left stage_log].
  destruct e as [rx |]; cbn [step_event].
  - destruct (serialEvent_frame rx st) as (Hst' & Hsp' & Hm' & Hd').
    apply IH; [| exact Hok | now rewrite Hm' | now rewrite Hd'].
    unfold arrays_in_range. now rewrite Hst', Hsp'.
  - destruct (commandFromComputerComplete st) eqn:Hc.
    + rewrite (loop_pending st Hc).
      destruct (dispatch_log (set_string (pending_command st) st) Hin)
        as (Hin' & Hok' & Hm' & Hd').
      cbn [set_string commandFromComputerString motor dyeInjected] in Hok', Hm', Hd'.
      destruct (String.eqb_spec (pending_command st) "ResetDyeInjected")
        as [E | E].
      * assert (Es : stages_of (pending_command st) = [])
          by (rewrite E; now apply stages_of_other).
        rewrite Es in Hm'. cbn [flat_map] in Hm'. rewrite app_nil_r in Hm'.
        apply IH; try assumption.
        cbn [set_complete set_string motor]. now rewrite Hm'.
      * apply IH.
        -- exact Hin'.
        -- now rewrite forallb_app, Hok, Hok'.
        -- cbn [set_complete set_string motor].
           now rewrite Hm', Hm, flat_map_app.
        -- cbn [set_complete set_string dyeInjected]. rewrite Hd', Hd.
           unfold add_volumes. now rewrite fold_left_app.
    + rewrite (loop_idle st Hc). now apply IH.
Qed.

Lemma run_reachable (events : list event) :
  forall st, reachable st -> reachable (run events st).
Proof.
  unfold run.
  induction events as [| e events IH]; intros st H; [exact H |].
  cbn [fold_left]. apply IH.
  destruct e; [now apply reach_serialEvent | now apply reach_loop].
Qed.

(** X4: after any sequence of serialEvent and loop runs from power-on,
    the calls made on the stepper are those of the stages of the Inject
    commands dispatched so far, in order: whole stages, each setSpeed,
    step and release with arguments in range, so the motor is released
    after every move; and dyeInjected is zero plus the volumes of the
    stages run since power-on or since the last ResetDyeInjected that
    was dispatched, added in the order they ran. *)
Theorem stage_history (events : list event) :
  forallb stage_in_range (fst (stage_log events power_on [] [])) = true
  /\ motor (run events power_on)
     = flat_map stage_calls (fst (stage_log events power_on [] []))
  /\ dyeInjected (run events power_on)
     = add_volumes (float_of_Z 0) (snd (stage_log events power_on [] [])).
Proof.
  apply stage_log_sound; try reflexivity.
  unfold arrays_in_range, array_within. cbn. lia.
Qed.

(** ** Exact matching of the commands without arguments *)

Lemma dispatch_invalid (st : State) :
  ~ In (commandFromComputerString st) nullary_commands ->
  startsWith (commandFromComputerString st) "Inject: " = false ->
  dispatch st = print ("Invalid" ++ nl) st.
Proof.
  intros Hnot Hpre. unfold dispatch.
  unfold nullary_commands in Hnot. cbn [In] in Hnot.
  rewrite !(proj2 (String.eqb_neq (commandFromComputerString st) _))
    by (intros E; rewrite E in Hnot; tauto).
  now rewrite Hpre.
Qed.

Lemma command_with_suffix (q x : string) :
  In q nullary_commands ->
  x <> "" ->
  ~ In (q ++ x) nullary_commands
  /\ startsWith (q ++ x) "Inject: " = false
  /\ has_char newline q = false
  /\ has_char Ascii.zero q = false.
Proof.
  unfold nullary_commands. cbn [In]. intros Hq Hx.
  destruct x as [| c x]; [contradiction |].
  repeat destruct Hq as [<- | Hq]; try contradiction;
    (split; [| split; [| split]; reflexivity]);
    intros H; repeat destruct H as [H | H]; try discriminate H; contradiction.
Qed.

(** X10: the commands without arguments are matched exactly: one of them
    followed by any further text before the newline (a space, a carriage
    return; any text without NUL byte) is answered "Invalid" and changes
    nothing but the buffer. *)
Theorem nullary_command_exact (st : State) (q x rest : string) :
  commandFromComputerComplete st = true ->
  commandFromComputerString st = (q ++ x) ++ nl ++ rest ->
  In q nullary_commands ->
  x <> "" ->
  has_char newline x = false ->
  has_char Ascii.zero x = false ->
  indexable (commandFromComputerString st) ->
  loop st = mkState "" false (dyeInjected st)
                    (injectionStageSpeeds st) (injectionStageSteps st)
                    (serial_tx st ++ [("Invalid" ++ nl)%string])%list
                    (motor st).
Proof.
  intros Hc Hs Hq Hx Hnl Hz Hfit.
  destruct (command_with_suffix q x Hq Hx) as (Hnot & Hpre & Hq_nl & Hq_z).
  assert (Hline : has_char newline (q ++ x) = false)
    by now rewrite has_char_append, Hq_nl, Hnl.
  assert (Hclean : has_char Ascii.zero (q ++ x) = false)
    by now rewrite has_char_append, Hq_z, Hz.
  rewrite (loop_line st (q ++ x) rest Hc Hs Hline Hclean Hfit).
  rewrite dispatch_invalid by assumption. reflexivity.
Qed.

(** ** Replies *)

Lemma run_stages_tx (count : nat) :
  forall i st, serial_tx (run_stages count i st) = serial_tx st.
Proof.
  induction count as [| c IH]; intros i st; cbn [run_stages];
    [reflexivity |].
  now rewrite IH.
Qed.

Lemma dispatch_tx (st : State) :
  exists reply : string,
    serial_tx (dispatch st) = (serial_tx st ++ [(reply ++ nl)%string])%list.
Proof.
  unfold dispatch.
  repeat match goal with
         | |- context [if (?a =? ?b)%string then _ else _] =>
             destruct (a =? b)%string; [eexists; reflexivity |]
         end.
  destruct (startsWith (commandFromComputerString st) "Inject: ");
    [| eexists; reflexivity].
  destruct (processInjectCommand_range (commandFromComputerString st) st)
    as (_ & _ & Hout & _).
  destruct (processInjectCommand (commandFromComputerString st) st) as [n st'].
  cbn [snd] in Hout. unfold outside_arrays in Hout.
  injection Hout as _ _ _ Ht _.
  destruct (n =? -1).
  - exists "Invalid". cbn. now rewrite Ht.
  - exists "Executing". rewrite run_stages_tx. cbn. now rewrite Ht.
Qed.

(** X11: a complete command gets exactly one reply, a text followed by a
    newline; when no command is complete loop does nothing; and running
    loop again changes nothing more, so no command is processed twice. *)
Theorem one_reply_per_command (st : State) :
  (if commandFromComputerComplete st
   then exists reply : string,
       serial_tx (loop st) = (serial_tx st ++ [(reply ++ nl)%string])%list
   else loop st = st)
  /\ commandFromComputerComplete (loop st) = false
  /\ loop (loop st) = loop st.
Proof.
  destruct (commandFromComputerComplete st) eqn:Hc.
  - rewrite (loop_pending st Hc).
    split; [| split; [reflexivity | now apply loop_idle]].
    destruct (dispatch_tx (set_string (pending_command st) st))
      as [reply Hr].
    exists reply. cbn [set_complete set_string serial_tx] in *. exact Hr.
  - rewrite (loop_idle st Hc). split; [reflexivity |].
    split; [exact Hc | now apply loop_idle].
Qed.

(** ** Bytes that fit the buffer *)

Lemma serialEvent_append (a : string) :
  forall b st, serialEvent (a ++ b) st = serialEvent b (serialEvent a st).
Proof.
  induction a as [| c a IH]; intros b st; cbn [append serialEvent];
    [reflexivity | apply IH].
Qed.

(** X12: while the bytes received fit the buffer they are appended to it
    in order, the flag is raised once a newline is among them and is never
    lowered by serialEvent, and nothing else changes: serialEvent prints
    nothing, makes no motor call and leaves the counter alone. *)
Theorem serialEvent_appends (st : State) (rx : string) :
  (String.length (commandFromComputerString st ++ rx) <= capacity)%nat ->
  serialEvent rx st
  = mkState (commandFromComputerString st ++ rx)
            (commandFromComputerComplete st || has_char newline rx)
            (dyeInjected st) (injectionStageSpeeds st) (injectionStageSteps st)
            (serial_tx st) (motor st).
Proof.
  intros Hlen. rewrite serialEvent_state.
  destruct (serialEvent_buffer rx st) as [_ Hbuf].
  { rewrite length_append in Hlen. lia. }
  now rewrite Hbuf, last_chars_short.
Qed.

(** X13: a line may arrive in pieces: bytes without a newline received
    while no command is complete are kept, loop leaves them alone, and
    the line is dispatched once the rest has come, just as if it had been
    received in one batch. *)
Theorem split_delivery (st : State) (a b : string) :
  commandFromComputerComplete st = false ->
  has_char newline a = false ->
  loop (serialEvent b (loop (serialEvent a st)))
  = loop (serialEvent (a ++ b) st).
Proof.
  intros Hc Hnl.
  rewrite (loop_idle (serialEvent a st)).
  - now rewrite serialEvent_append.
  - rewrite serialEvent_state. cbn. now rewrite Hc, Hnl.
Qed.

(** X14: a line without newline and without NUL byte, shorter than the
    buffer, sent with its newline to a device whose buffer is empty, is
    dispatched exactly as sent. *)
Theorem line_round_trip (st : State) (line : string) :
  commandFromComputerString st = "" ->
  has_char newline line = false ->
  has_char Ascii.zero line = false ->
  (String.length line < capacity)%nat ->
  exchange line st
  = set_complete false
      (set_string "" (dispatch (set_string line (set_complete true st)))).
Proof.
  intros Hs Hnl Hz Hlen. unfold exchange.
  destruct (receive_line st line Hs Hnl Hz) as [_ ->].
  rewrite last_chars_short by lia. reflexivity.
Qed.

End DyeInjector.

(** ** The model run on concrete inputs, floats read exactly *)

#[local] Abbreviation xloop :=
  (loop Q Qplus Qmult Qdiv inject_Z Exact.volumePerRevolution Exact.floatToString).
#[local] Abbreviation xexchange :=
  (exchange Q Qplus Qmult Qdiv inject_Z Exact.volumePerRevolution
            Exact.floatToString).
#[local] Abbreviation xdispatch_line :=
  (dispatch_line Q Qplus Qmult Qdiv inject_Z Exact.volumePerRevolution
                 Exact.floatToString).
#[local] Abbreviation xdispatch :=
  (dispatch Q Qplus Qmult Qdiv inject_Z Exact.volumePerRevolution
            Exact.floatToString).
#[local] Abbreviation xpower_on := (power_on Q inject_Z).

Lemma inject_executes_stages_witness :
  let st := serialEvent Q ("Inject: 200 60,-100 30" ++ nl) xpower_on in
  serial_tx Q (xloop st) = [("Executing" ++ nl)%string]
  /\ motor Q (xloop st)
     = [setSpeed 60; step 200 FORWARD DOUBLE; release;
        setSpeed 30; step 100 BACKWARD DOUBLE; release]
  /\ List.length (flat_map stage_calls [(200, 60); (-100, 30)]) = 6%nat
  /\ dyeInjected Q (xloop st)
     = add_volumes Q Qplus Qmult Qdiv inject_Z Exact.volumePerRevolution
                   (dyeInjected Q st) [(200, 60); (-100, 30)].
Proof.
  intro st.
  exact (inject_executes_stages Q Qplus Qmult Qdiv inject_Z
           Exact.volumePerRevolution Exact.floatToString
           st [(200, 60); (-100, 30)] ""
           eq_refl eq_refl (conj (le_S 1 1 (le_n 1)) (le_S 2 3 (le_S 2 2 (le_n 2))))
           eq_refl ltac:(vm_compute; discriminate)).
Defined.

(** Against C1 as first stated: the stage of 40000 steps is well formed,
    yet the stepper is not asked for 40000 steps forward: the steps are
    stored in a 16-bit int, where 40000 is -25536, and the motor turns
    25536 steps backward. *)
Lemma steps_beyond_int_run_backward :
  let st := serialEvent Q ("Inject: 40000 60" ++ nl) xpower_on in
  serial_tx Q (xloop st) = [("Executing" ++ nl)%string]
  /\ motor Q (xloop st) = [setSpeed 60; step 25536 BACKWARD DOUBLE; release]
  /\ stage_calls (40000, 60) = [setSpeed 60; step 40000 FORWARD DOUBLE; release]
  /\ motor Q (xloop st) <> stage_calls (40000, 60).
Proof. vm_compute. repeat split; try reflexivity. discriminate. Qed.

Lemma empty_stage_list_executes_witness :
  let st := serialEvent Q ("Inject: " ++ nl) xpower_on in
  fst (processInjectCommand Q "Inject: " st) = 0
  /\ serial_tx Q (xloop st) = [("Executing" ++ nl)%string]
  /\ motor Q (xloop st) = []
  /\ dyeInjected Q (xloop st) = dyeInjected Q st.
Proof.
  intro st.
  exact (empty_stage_list_executes Q Qplus Qmult Qdiv inject_Z
           Exact.volumePerRevolution Exact.floatToString st ""
           eq_refl eq_refl ltac:(vm_compute; discriminate)).
Defined.

Lemma inject_five_stages_invalid_witness :
  let st := serialEvent Q ("Inject: 1 2,3 4,5 6,7 8,9 10" ++ nl) xpower_on in
  serial_tx Q (xloop st) = [("Invalid" ++ nl)%string]
  /\ motor Q (xloop st) = []
  /\ dyeInjected Q (xloop st) = dyeInjected Q st.
Proof.
  intro st.
  exact (inject_five_stages_invalid Q Qplus Qmult Qdiv inject_Z
           Exact.volumePerRevolution Exact.floatToString st
           [("1", "2"); ("3", "4"); ("5", "6"); ("7", "8"); ("9", "10")] ""
           eq_refl eq_refl eq_refl eq_refl (le_n 5)
           ltac:(vm_compute; discriminate)).
Defined.

(** Against C3 as first stated: a list of five stages with a NUL byte
    after the first stage is not refused: the command text ends at the
    NUL byte, "Executing" is printed and the first stage is run. *)
Lemma nul_byte_cuts_stage_list :
  let line := "Inject: 1 2" ++ String Ascii.zero ",3 4,5 6,7 8,9 10" in
  let st := serialEvent Q (line ++ nl) xpower_on in
  commandFromComputerString Q st = line ++ nl
  /\ serial_tx Q (xloop st) = [("Executing" ++ nl)%string]
  /\ motor Q (xloop st) = [setSpeed 2; step 1 FORWARD DOUBLE; release].
Proof. vm_compute. repeat split; reflexivity. Qed.

(** Against C4 as first stated: the speed token "-30" is not read as 0
    but as 65506, and the command is accepted. *)
Lemma negative_speed_is_not_zero :
  fst (processInjectCommand Q "Inject: 100 -30" xpower_on) = 1
  /\ array_get 0 (injectionStageSpeeds Q
                   (snd (processInjectCommand Q "Inject: 100 -30" xpower_on)))
     = 65506
  /\ cast_uint (toInt "-30") <> 0.
Proof.
  split; [reflexivity |]. split; [reflexivity |].
  vm_compute. discriminate.
Qed.

Lemma negative_speed_wraps_witness :
  let result := processInjectCommand Q (inject_text [("100", "-30")]) xpower_on in
  fst result = 1
  /\ array_get 0 (injectionStageSpeeds Q (snd result)) = (-30) mod 65536
  /\ (-65536 < -30 ->
      array_get 0 (injectionStageSpeeds Q (snd result)) = 65536 + -30).
Proof.
  exact (negative_speed_wraps Q xpower_on [("100", "-30")] 0 "100" (-30)
           (conj (le_n 1) (le_S 1 3 (le_S 1 2 (le_S 1 1 (le_n 1)))))
           eq_refl ltac:(vm_compute; discriminate) eq_refl eq_refl).
Defined.

Lemma line_buffer_window_witness :
  let rx := fill 300 "a" ++ nl in
  let line := "Inject: " ++ fill 300 "0" ++ "200 60" in
  (String.length (commandFromComputerString Q (receive Q "b" xpower_on))
   <= capacity)%nat
  /\ (String.length (commandFromComputerString Q (serialEvent Q rx xpower_on))
      <= capacity)%nat
  /\ commandFromComputerString Q (receive Q "b" xpower_on)
     = (if (String.length (commandFromComputerString Q xpower_on) <? capacity)%nat
        then commandFromComputerString Q xpower_on
        else drop 1 (commandFromComputerString Q xpower_on)) ++ "b"
  /\ commandFromComputerString Q (serialEvent Q rx xpower_on)
     = last_chars capacity (commandFromComputerString Q xpower_on ++ rx)
  /\ commandFromComputerString Q (serialEvent Q (line ++ nl) xpower_on)
     = last_chars (capacity - 1) line ++ nl
  /\ xloop (serialEvent Q (line ++ nl) xpower_on)
     = set_complete Q false
         (set_string Q ""
            (xdispatch (set_string Q (last_chars (capacity - 1) line)
                                   (set_complete Q true xpower_on)))).
Proof.
  intros rx line.
  exact (line_buffer_window Q Qplus Qmult Qdiv inject_Z
           Exact.volumePerRevolution Exact.floatToString
           xpower_on rx "b" xpower_on line
           ltac:(vm_compute; lia) eq_refl eq_refl eq_refl).
Defined.

(** Against C5 as first stated: a line of exactly 256 characters, which
    is a valid Inject command when parsed whole, is parsed without its
    first character once received, and so refused: the command text is
    made of the last 255 characters of the line, not of the last 256. *)
Lemma full_line_loses_first_character :
  let line := "Inject: " ++ fill 242 "0" ++ "200 60" in
  String.length line = capacity
  /\ serial_tx Q (xdispatch (set_string Q line xpower_on))
     = [("Executing" ++ nl)%string]
  /\ commandFromComputerString Q (serialEvent Q (line ++ nl) xpower_on)
     = drop 1 line ++ nl
  /\ serial_tx Q (xexchange line xpower_on) = [("Invalid" ++ nl)%string]
  /\ motor Q (xexchange line xpower_on) = [].
Proof. vm_compute. repeat split; reflexivity. Qed.

Lemma reset_dye_injected_witness :
  let st := serialEvent Q ("ResetDyeInjected" ++ nl)
                        (xexchange "Inject: 200 60" xpower_on) in
  dyeInjected Q (xloop st) = inject_Z 0
  /\ serial_tx Q (xloop st) = (serial_tx Q st ++ [("ACK" ++ nl)%string])%list.
Proof.
  intro st.
  exact (reset_dye_injected Q Qplus Qmult Qdiv inject_Z
           Exact.volumePerRevolution Exact.floatToString st ""
           eq_refl eq_refl ltac:(vm_compute; discriminate)).
Defined.

Lemma unrecognized_line_invalid_witness :
  let st := serialEvent Q ("bogus" ++ nl) xpower_on in
  xloop st = mkState Q "" false (dyeInjected Q st)
                     (injectionStageSpeeds Q st) (injectionStageSteps Q st)
                     (serial_tx Q st ++ [("Invalid" ++ nl)%string])%list
                     (motor Q st).
Proof.
  intro st.
  refine (unrecognized_line_invalid Q Qplus Qmult Qdiv inject_Z
            Exact.volumePerRevolution Exact.floatToString st "bogus" ""
            eq_refl eq_refl eq_refl eq_refl ltac:(vm_compute; discriminate)
            _ eq_refl).
  cbn. intuition discriminate.
Defined.

(** Against C7 as first stated: the line made of "ResetDyeInjected", a
    NUL byte and "x" is none of the commands and does not start with
    "Inject: ", yet it is answered "ACK" and the counter is set to zero:
    the comparison stops at the NUL byte. *)
Lemma nul_byte_line_is_accepted :
  let line := "ResetDyeInjected" ++ String Ascii.zero "x" in
  let st := serialEvent Q (line ++ nl) (xexchange "Inject: 200 60" xpower_on) in
  ~ In line nullary_commands
  /\ startsWith line "Inject: " = false
  /\ has_char newline line = false
  /\ dyeInjected Q st <> inject_Z 0
  /\ dyeInjected Q (xloop st) = inject_Z 0
  /\ serial_tx Q (xloop st) = (serial_tx Q st ++ [("ACK" ++ nl)%string])%list.
Proof.
  cbv zeta. split; [cbn; intuition discriminate |].
  vm_compute. repeat split; try reflexivity. discriminate.
Qed.

Lemma non_numeric_token_is_zero_witness :
  let result := processInjectCommand Q (inject_text [("abc", "60")]) xpower_on in
  fst result = 1
  /\ array_get 0 (injectionStageSteps Q (snd result)) = 0
  /\ array_get 0 (injectionStageSpeeds Q (snd result)) = 60.
Proof.
  destruct (non_numeric_token_is_zero Q xpower_on [("abc", "60")] 0 "abc" "60"
              (conj (le_n 1) (le_S 1 3 (le_S 1 2 (le_S 1 1 (le_n 1)))))
              eq_refl ltac:(vm_compute; discriminate) eq_refl)
    as (Hn & Hsteps & _ & _ & Hspeed).
  split; [exact Hn |]. split; [exact (Hsteps eq_refl) |].
  exact (Hspeed 60 "" eq_refl eq_refl).
Defined.

(** Against C8 as first stated: the tokens "12abc", "1e3" and "3.5" are
    not numerals, yet they are not read as 0 but as the digits they
    start with. *)
Lemma numeral_prefix_is_not_zero :
  let first := processInjectCommand Q "Inject: 12abc 60" xpower_on in
  let second := processInjectCommand Q "Inject: 1e3 3.5" xpower_on in
  fst first = 1
  /\ array_get 0 (injectionStageSteps Q (snd first)) = 12
  /\ array_get 0 (injectionStageSpeeds Q (snd first)) = 60
  /\ fst second = 1
  /\ array_get 0 (injectionStageSteps Q (snd second)) = 1
  /\ array_get 0 (injectionStageSpeeds Q (snd second)) = 3.
Proof. vm_compute. repeat split; reflexivity. Qed.

Lemma queries_leave_state_witness :
  let st := serialEvent Q ("DyeInjected?" ++ nl)
                        (xexchange "Inject: 200 60" xpower_on) in
  let st0 := xexchange "Inject: -50 10" xpower_on in
  device Q (xloop st) = device Q st
  /\ device Q (Nat.iter 3 (xdispatch_line "Status?") st0) = device Q st0
  /\ serial_tx Q (Nat.iter 3 (xdispatch_line "Status?") st0)
     = (serial_tx Q st0 ++ repeat ("OK" ++ nl)%string 3)%list.
Proof.
  intros st st0.
  refine (queries_leave_state Q Qplus Qmult Qdiv inject_Z
            Exact.volumePerRevolution Exact.floatToString st "DyeInjected?" ""
            st0 3 eq_refl eq_refl _ ltac:(vm_compute; discriminate)).
  cbn. tauto.
Defined.



(** The second command of the batch above is never answered. *)
Example second_command_dropped :
  serial_tx Q (xloop (xloop (serialEvent Q ("Status?" ++ nl ++ "Version?" ++ nl)
                                         xpower_on)))
  = [("OK" ++ nl)%string].
Proof. reflexivity. Qed.

Lemma long_line_dispatch_witness :
  let line := fill 300 "a" in
  commandFromComputerString Q (serialEvent Q (line ++ nl) xpower_on)
  = last_chars (capacity - 1) line ++ nl
  /\ String.length (last_chars (capacity - 1) line) = (capacity - 1)%nat
  /\ xloop (serialEvent Q (line ++ nl) xpower_on)
     = set_complete Q false
         (set_string Q ""
            (xdispatch (set_string Q (last_chars (capacity - 1) line)
                                   (set_complete Q true xpower_on)))).
Proof.
  intro line.
  exact (long_line_dispatch Q Qplus Qmult Qdiv inject_Z
           Exact.volumePerRevolution Exact.floatToString xpower_on line
           eq_refl eq_refl eq_refl ltac:(vm_compute; lia)).
Defined.

Lemma evicted_newline_dispatch_witness :
  let rx := "Inject: " ++ fill 242 "0" ++ "200 60" in
  commandFromComputerString Q (serialEvent Q (nl ++ rx) xpower_on) = rx
  /\ commandFromComputerComplete Q (serialEvent Q (nl ++ rx) xpower_on) = true
  /\ xloop (serialEvent Q (nl ++ rx) xpower_on)
     = set_complete Q false
         (set_string Q "" (xdispatch (set_string Q rx (set_complete Q true xpower_on)))).
Proof.
  intro rx.
  exact (evicted_newline_dispatch Q Qplus Qmult Qdiv inject_Z
           Exact.volumePerRevolution Exact.floatToString xpower_on rx
           eq_refl eq_refl eq_refl eq_refl).
Defined.

(** The Inject command received after the newline is executed. *)
Example evicted_newline_executes :
  let st := xloop (serialEvent Q (nl ++ "Inject: " ++ fill 242 "0" ++ "200 60")
                               xpower_on) in
  serial_tx Q st = [("Executing" ++ nl)%string]
  /\ motor Q st = [setSpeed 60; step 200 FORWARD DOUBLE; release].
Proof. vm_compute. split; reflexivity. Qed.

Lemma stage_history_witness :
  let events := [ev_serialEvent ("Inject: -50 10" ++ nl); ev_loop;
                 ev_serialEvent ("ResetDyeInjected" ++ nl); ev_loop;
                 ev_serialEvent ("Inject: 200 60,7 8" ++ nl); ev_loop; ev_loop] in
  let st := run Q Qplus Qmult Qdiv inject_Z Exact.volumePerRevolution
                Exact.floatToString events xpower_on in
  forallb stage_in_range [(-50, 10); (200, 60); (7, 8)] = true
  /\ motor Q st = flat_map stage_calls [(-50, 10); (200, 60); (7, 8)]
  /\ dyeInjected Q st
     = add_volumes Q Qplus Qmult Qdiv inject_Z Exact.volumePerRevolution
                   (inject_Z 0) [(200, 60); (7, 8)].
Proof.
  intros events st.
  exact (stage_history Q Qplus Qmult Qdiv inject_Z
           Exact.volumePerRevolution Exact.floatToString events).
Defined.

Lemma trailing_comma_witness :
  processInjectCommand Q (inject_text [("1", "2"); ("3", "4")] ++ ",") xpower_on
  = (2, store_stages Q 0 [("1", "2"); ("3", "4")] xpower_on).
Proof.
  exact (trailing_comma Q xpower_on [("1", "2"); ("3", "4")]
           ltac:(cbn; lia) eq_refl ltac:(vm_compute; discriminate)).
Defined.

(** Four stages and a trailing comma are refused. *)
Example trailing_comma_after_four :
  fst (processInjectCommand Q "Inject: 1 2,3 4,5 6,7 8," xpower_on) = -1.
Proof. reflexivity. Qed.

Lemma lone_token_invalid_witness :
  fst (processInjectCommand Q
         ("Inject: " ++ stage_list_then [("1", "2")] "300") xpower_on) = -1.
Proof.
  refine (lone_token_invalid Q xpower_on [("1", "2")] "300"
            eq_refl _ eq_refl ltac:(vm_compute; discriminate)).
  discriminate.
Defined.

Lemma inject_executes_wrapped_witness :
  let st := serialEvent Q ("Inject: 40000 60" ++ nl) xpower_on in
  serial_tx Q (xloop st) = [("Executing" ++ nl)%string]
  /\ motor Q (xloop st) = [setSpeed 60; step 25536 BACKWARD DOUBLE; release]
  /\ dyeInjected Q (xloop st)
     = add_volumes Q Qplus Qmult Qdiv inject_Z Exact.volumePerRevolution
                   (dyeInjected Q st) [(-25536, 60)].
Proof.
  intro st.
  exact (inject_executes_wrapped Q Qplus Qmult Qdiv inject_Z
           Exact.volumePerRevolution Exact.floatToString st [(40000, 60)] ""
           eq_refl eq_refl ltac:(cbn; lia) ltac:(vm_compute; discriminate)).
Defined.

Lemma numeral_prefix_token_witness :
  let result := processInjectCommand Q (inject_text [("200steps", "60rpm")])
                                     xpower_on in
  fst result = 1
  /\ array_get 0 (injectionStageSteps Q (snd result)) = cast_int 200
  /\ array_get 0 (injectionStageSpeeds Q (snd result)) = cast_uint 60.
Proof.
  exact (numeral_prefix_token Q xpower_on [("200steps", "60rpm")] 0
           200 60 "steps" "rpm"
           ltac:(cbn; lia) eq_refl ltac:(vm_compute; discriminate)
           eq_refl eq_refl eq_refl).
Defined.

Lemma nullary_command_exact_witness :
  let cr := String "013"%char "" in
  let st := serialEvent Q ("Status?" ++ cr ++ nl) xpower_on in
  xloop st = mkState Q "" false (dyeInjected Q st)
                     (injectionStageSpeeds Q st) (injectionStageSteps Q st)
                     (serial_tx Q st ++ [("Invalid" ++ nl)%string])%list
                     (motor Q st).
Proof.
  intros cr st.
  refine (nullary_command_exact Q Qplus Qmult Qdiv inject_Z
            Exact.volumePerRevolution Exact.floatToString st "Status?" cr ""
            eq_refl eq_refl _ _ eq_refl eq_refl
            ltac:(vm_compute; discriminate)).
  - cbn. tauto.
  - discriminate.
Defined.

Lemma serialEvent_appends_witness :
  let st := serialEvent Q "Stat" xpower_on in
  serialEvent Q ("us?" ++ nl) st
  = mkState Q (commandFromComputerString Q st ++ "us?" ++ nl)
            (commandFromComputerComplete Q st || has_char newline ("us?" ++ nl))
            (dyeInjected Q st) (injectionStageSpeeds Q st)
            (injectionStageSteps Q st) (serial_tx Q st) (motor Q st).
Proof.
  intro st.
  exact (serialEvent_appends Q st ("us?" ++ nl) ltac:(vm_compute; lia)).
Defined.

Lemma split_delivery_witness :
  xloop (serialEvent Q ("us?" ++ nl) (xloop (serialEvent Q "Stat" xpower_on)))
  = xloop (serialEvent Q ("Stat" ++ "us?" ++ nl) xpower_on).
Proof.
  exact (split_delivery Q Qplus Qmult Qdiv inject_Z
           Exact.volumePerRevolution Exact.floatToString xpower_on
           "Stat" ("us?" ++ nl) eq_refl eq_refl).
Defined.

Lemma line_round_trip_witness :
  xexchange "Version?" xpower_on
  = set_complete Q false
      (set_string Q ""
         (xdispatch (set_string Q "Version?" (set_complete Q true xpower_on)))).
Proof.
  exact (line_round_trip Q Qplus Qmult Qdiv inject_Z
           Exact.volumePerRevolution Exact.floatToString xpower_on "Version?"
           eq_refl eq_refl eq_refl ltac:(vm_compute; lia)).
Defined.
